(** * incus-compose: network batches and the service dependency graph

    A shallow embedding of
    - [pkg/application/network.go]: [Compose.CreateNetworks] and
      [Compose.DestroyNetworks];
    - [cmd/root.go]: the part of [rootCmd.PersistentPreRunE] that builds the
      service dependency graph and stores it in [app.Dag].

    Go maps are [gmap]s.  Go leaves the order of a [range] over a map
    unspecified, so every loop over a map takes the order of that particular
    iteration as an argument, a permutation of the map ([range_of]).
    Remote calls run in a small state monad over the state of the remote
    side and a log of the calls made; a Go run-time panic is an outcome of
    its own. *)

From Stdlib Require Import Ascii.
From stdpp Require Import gmap strings list fin_maps relations.

Set Warnings "-clear-no-such-hyp".

Local Open Scope string_scope.
Local Open Scope list_scope.

(** ** Go errors *)

(** An [error] value: a leaf with its message, or the [joinError] that
    [errors.Join] builds. *)
#[warnings="-register-all"]
Inductive error : Type :=
| ErrMsg (msg : string)
| ErrJoin (errs : list error).

(** [errors.Join(errs...)]: nil values are dropped; the result is nil when
    nothing is left and a [joinError] holding the rest otherwise. *)
Definition errors_Join (errs : list (option error)) : option error :=
  match omap id errs with
  | [] => None
  | es => Some (ErrJoin es)
  end.

(** The leaves an error wraps, the way [errors.Is] walks [Unwrap() []error]. *)
Fixpoint causes (e : error) : list string :=
  match e with
  | ErrMsg m => [m]
  | ErrJoin es =>
      (fix go (l : list error) : list string :=
         match l with
         | [] => []
         | x :: r => causes x ++ go r
         end) es
  end.

Definition causes_opt (e : option error) : list string :=
  match e with
  | None => []
  | Some e => causes e
  end.

(** A [range] over map [m] visits the entries of [m], each once, in some
    order. *)
Definition range_of {V : Type} (m : gmap string V) (ord : list (string * V)) : Prop :=
  ord ≡ₚ map_to_list m.

Definition range_keys {V : Type} (m : gmap string V) (ord : list string) : Prop :=
  ord ≡ₚ elements (dom m).

(** ** compose-go: [types.NetworkConfig] and its [Extensions] *)
Module types.

(** The value of an extension key ([any] in Go), as far as decoding it
    into a Go string can tell values apart. *)
Inductive ExtValue : Type :=
| ExtString (s : string)   (* a string *)
| ExtNil                   (* nil (a YAML null) *)
| ExtOther.                (* a number, a boolean, a list, a mapping *)

(** [mapstructure.Decode(v, &target)] for a string target: a string is
    stored; nil input stores nothing and is no error; any other kind is
    an error and stores nothing. *)
Definition Decode (v : ExtValue) (target : string) : string * option error :=
  match v with
  | ExtString s => (s, None)
  | ExtNil => (target, None)
  | ExtOther => (target, Some (ErrMsg "expected type 'string', got unconvertible type"))
  end.

(** [Extensions.Get(name, &target)]: [(ok, err)] and the target after the
    call. *)
Definition Extensions_Get (e : gmap string ExtValue) (name : string) (target : string)
  : bool * option error * string :=
  match e !! name with
  | Some v => let '(t, err) := Decode v target in (true, err, t)
  | None => (false, None, target)
  end.

Record NetworkConfig : Type := {
  Name : string;
  External : bool;
  Extensions : gmap string ExtValue;
}.

Record Project : Type := {
  Networks : gmap string NetworkConfig;
}.

End types.

(** ** incus: [api.NetworksPost] *)
Module api.

Record NetworksPost : Type := {
  Name : string;
  Type_ : string;
  Config : gmap string string;
  Description : string;
}.

End api.

(** ** The remote side *)

(** An endpoint client ([incus.InstanceServer]) is known by its name. *)
Definition Server : Type := string.

(** [remoteResource]: what [ParseServers] resolves a name to. *)
Record remoteResource : Type := {
  server : Server;
  name : string;
}.

(** The calls [network.go] makes, each with what it returned, in the order
    they are made. *)
Inductive Event : Type :=
| EvParseServers (remote : string) (resources : list remoteResource) (err : option error)
| EvCreateNetwork (srv : Server) (req : api.NetworksPost) (err : option error)
| EvDeleteNetwork (srv : Server) (netname : string) (err : option error).

(** What the functions of [network.go] call and do not define:
    [Compose.ParseServers], a function of the model and the configuration,
    and the client's [CreateNetwork] and [DeleteNetwork], whose answers may
    depend on the state [W] of the remote side. *)
Record Env (W : Type) : Type := {
  ParseServers : string -> list remoteResource * option error;
  CreateNetwork : Server -> api.NetworksPost -> W -> option error * W;
  DeleteNetwork : Server -> string -> W -> option error * W;
}.
Arguments ParseServers {W} _ _.
Arguments CreateNetwork {W} _ _ _ _.
Arguments DeleteNetwork {W} _ _ _ _.

Record State (W : Type) : Type := {
  world : W;
  trace : list Event;
}.
Arguments world {W} _.
Arguments trace {W} _.
Arguments Build_State {W} _ _.

(** How a Go function ends: it returns a value or it panics. *)
Inductive Res (A : Type) : Type :=
| Val (a : A)
| Panic (msg : string).
Arguments Val {A} _.
Arguments Panic {A} _.

Definition M (W A : Type) : Type := State W -> Res A * State W.

Definition ret {W A : Type} (a : A) : M W A := fun s => (Val a, s).

Definition bind {W A B : Type} (m : M W A) (k : A -> M W B) : M W B :=
  fun s =>
    match m s with
    | (Val a, s') => k a s'
    | (Panic msg, s') => (Panic msg, s')
    end.

Notation "'do' x <- m ; k" := (bind m (fun x => k))
  (at level 10, x pattern, m at level 100, k at level 200).

Definition emit {W : Type} (e : Event) : M W unit :=
  fun s => (Val tt, Build_State (world s) (trace s ++ [e])).

Definition callParseServers {W : Type} (env : Env W) (remote : string)
  : M W (list remoteResource * option error) :=
  let '(resources, err) := ParseServers env remote in
  do _ <- emit (EvParseServers remote resources err);
  ret (resources, err).

Definition callCreateNetwork {W : Type} (env : Env W) (srv : Server) (req : api.NetworksPost)
  : M W (option error) :=
  fun s =>
    let '(err, w) := CreateNetwork env srv req (world s) in
    (Val err, Build_State w (trace s ++ [EvCreateNetwork srv req err])).

Definition callDeleteNetwork {W : Type} (env : Env W) (srv : Server) (netname : string)
  : M W (option error) :=
  fun s =>
    let '(err, w) := DeleteNetwork env srv netname (world s) in
    (Val err, Build_State w (trace s ++ [EvDeleteNetwork srv netname err])).

(** [resources[0]]: Go panics when the slice is empty. *)
Definition index0 {W : Type} (resources : list remoteResource) : M W remoteResource :=
  match resources with
  | r :: _ => ret r
  | [] => fun s => (Panic "index out of range [0] with length 0", s)
  end.

(** ** The graph library ([github.com/dominikbraun/graph]) *)

(** The library is not part of this repository; the model follows its
    documented behaviour for a graph of strings hashed by [StringHash]
    (the identity): a vertex store and an edge store, and the [Traits]
    that [New]'s options set. *)
Module graph.

Record Traits : Type := {
  IsDirected : bool;
  IsAcyclic : bool;
  IsWeighted : bool;
  IsRooted : bool;
  PreventCycles : bool;
}.

Definition noTraits : Traits :=
  {| IsDirected := false; IsAcyclic := false; IsWeighted := false;
     IsRooted := false; PreventCycles := false |}.

(** [Directed()]. *)
Definition Directed (t : Traits) : Traits :=
  {| IsDirected := true; IsAcyclic := IsAcyclic t; IsWeighted := IsWeighted t;
     IsRooted := IsRooted t; PreventCycles := PreventCycles t |}.

(** [Acyclic()]: declares the graph acyclic.  Edges that form a cycle can
    still be added; only [PreventCycles()] turns the check on. *)
Definition Acyclic (t : Traits) : Traits :=
  {| IsDirected := IsDirected t; IsAcyclic := true; IsWeighted := IsWeighted t;
     IsRooted := IsRooted t; PreventCycles := PreventCycles t |}.

(** [PreventCycles()]: [Acyclic()] and the check on [AddEdge]. *)
Definition PreventCycles_option (t : Traits) : Traits :=
  {| IsDirected := IsDirected t; IsAcyclic := true; IsWeighted := IsWeighted t;
     IsRooted := IsRooted t; PreventCycles := true |}.

Record Graph : Type := {
  traits : Traits;
  vertices : gset string;
  edges : gset (string * string);
}.

Inductive GraphError : Type :=
| ErrVertexAlreadyExists
| ErrSourceVertexNotFound (hash : string)
| ErrTargetVertexNotFound (hash : string)
| ErrEdgeAlreadyExists
| ErrEdgeCreatesCycle.

(** [New(hash, options...)]. *)
Definition New (options : list (Traits -> Traits)) : Graph :=
  {| traits := foldl (fun t o => o t) noTraits options;
     vertices := ∅;
     edges := ∅ |}.

(** [g.AddVertex(value)]: the graph afterwards and the error returned. *)
Definition AddVertex (g : Graph) (value : string) : Graph * option GraphError :=
  if decide (value ∈ vertices g) then (g, Some ErrVertexAlreadyExists)
  else ({| traits := traits g;
           vertices := {[value]} ∪ vertices g;
           edges := edges g |}, None).

Definition predecessors (g : Graph) (v : string) : list string :=
  omap (fun e : string * string => if decide (e.2 = v) then Some e.1 else None)
       (elements (edges g)).

(** The loop of [CreatesCycle]: a depth-first walk over predecessors from
    [source], looking for [target]; each pop costs one unit of fuel. *)
Fixpoint createsCycle_walk (fuel : nat) (g : Graph) (visited : gset string)
    (stack : list string) (target : string) : bool :=
  match fuel with
  | O => false
  | S fuel =>
      match stack with
      | [] => false
      | currentHash :: stack =>
          if decide (currentHash ∈ visited)
          then createsCycle_walk fuel g visited stack target
          else if decide (currentHash = target) then true
          else createsCycle_walk fuel g ({[currentHash]} ∪ visited)
                 (predecessors g currentHash ++ stack) target
      end
  end.

(** [CreatesCycle(g, source, target)]; a vertex is pushed at most once per
    edge into it, so [2 + size (edges g)] pops empty the stack. *)
Definition createsCycle (g : Graph) (source target : string) : bool :=
  if decide (source = target) then true
  else createsCycle_walk (2 + size (edges g)) g ∅ [source] target.

(** [g.AddEdge(sourceHash, targetHash)] of a directed graph. *)
Definition AddEdge (g : Graph) (sourceHash targetHash : string)
  : Graph * option GraphError :=
  if decide (sourceHash ∈ vertices g) then
    if decide (targetHash ∈ vertices g) then
      if decide ((sourceHash, targetHash) ∈ edges g) then (g, Some ErrEdgeAlreadyExists)
      else if PreventCycles (traits g) && createsCycle g sourceHash targetHash
      then (g, Some ErrEdgeCreatesCycle)
      else ({| traits := traits g;
               vertices := vertices g;
               edges := {[(sourceHash, targetHash)]} ∪ edges g |}, None)
    else (g, Some (ErrTargetVertexNotFound targetHash))
  else (g, Some (ErrSourceVertexNotFound sourceHash)).

End graph.

(** ** [pkg/application] *)
Module application.

(** [c.Network]: the run-level defaults. *)
Record NetworkDefaults : Type := {
  Type_ : string;
  Uplink : string;
}.

Record Service : Type := {
  DependsOn : list string;
}.

Record Compose : Type := {
  ComposeProject : types.Project;
  Network : NetworkDefaults;
  Services : gmap string Service;
  Remote : string;
  Dag : option graph.Graph;
}.

(** [network.go] lines 18-27: the type and the uplink of one network. *)
Definition networkSettings (c : Compose) (network : types.NetworkConfig) : string * string :=
  let nettype := "" in
  let uplink := "" in
  let nettype :=
    match types.Extensions_Get (types.Extensions network) "x-incus-type" nettype with
    | (true, None, t) => t
    | _ => Type_ (Network c)
    end in
  let uplink :=
    match types.Extensions_Get (types.Extensions network) "x-incus-uplink" uplink with
    | (true, None, t) => t
    | _ => Uplink (Network c)
    end in
  (nettype, uplink).

(** [network.go] lines 36-45: the request. *)
Definition networkRequest (network : types.NetworkConfig) (nettype uplink : string)
  : api.NetworksPost :=
  let config : gmap string string := ∅ in
  let config := if decide (nettype = "ovn") then <["network" := uplink]> config else config in
  {| api.Name := types.Name network;
     api.Type_ := nettype;
     api.Config := config;
     api.Description := "" |}.

(** [CreateNetworks], the loop over [c.ComposeProject.Networks] in the
    order [ord] of this run ([range_of]); the [slog] lines are left out.
    The loop is defined on every list of entries, and the properties below
    are proved for every list. *)
Fixpoint CreateNetworks_loop {W : Type} (env : Env W) (c : Compose)
    (ord : list (string * types.NetworkConfig)) : M W (option error) :=
  match ord with
  | [] => ret None
  | (key, network) :: rest =>
      if types.External network then CreateNetworks_loop env c rest
      else
        let '(nettype, uplink) := networkSettings c network in
        let apiNetwork := networkRequest network nettype uplink in
        do (resources, err) <- callParseServers env (types.Name network);
        match err with
        | Some e => ret (Some e)
        | None =>
            do resource <- index0 resources;
            let client := server resource in
            do err <- callCreateNetwork env client apiNetwork;
            match err with
            | Some e => ret (Some e)
            | None => CreateNetworks_loop env c rest
            end
        end
  end.

Definition CreateNetworks {W : Type} (env : Env W) (c : Compose)
    (ord : list (string * types.NetworkConfig)) : M W (option error) :=
  CreateNetworks_loop env c ord.

(** [DestroyNetworks], the loop with its accumulator [funcError]. *)
Fixpoint DestroyNetworks_loop {W : Type} (env : Env W) (c : Compose)
    (ord : list (string * types.NetworkConfig)) (funcError : option error)
  : M W (option error) :=
  match ord with
  | [] => ret funcError
  | (key, network) :: rest =>
      if types.External network then DestroyNetworks_loop env c rest funcError
      else
        do (resources, err) <- callParseServers env (types.Name network);
        let funcError :=
          match err with
          | Some e => errors_Join [funcError; Some e]
          | None => funcError
          end in
        do resource <- index0 resources;
        do err <- callDeleteNetwork env (server resource) (name resource);
        let funcError :=
          match err with
          | Some e => errors_Join [funcError; Some e]
          | None => funcError
          end in
        DestroyNetworks_loop env c rest funcError
  end.

Definition DestroyNetworks {W : Type} (env : Env W) (c : Compose)
    (ord : list (string * types.NetworkConfig)) : M W (option error) :=
  DestroyNetworks_loop env c ord None.

End application.

(** ** [cmd]: the dependency graph of [rootCmd.PersistentPreRunE] *)
Module cmd.
Import application.

(** [app.Services[name].DependsOn]; a missing key reads as the zero
    [Service]. *)
Definition dependsOn (app : Compose) (name : string) : list string :=
  match Services app !! name with
  | Some svc => DependsOn svc
  | None => []
  end.

(** The first loop: [_ = g.AddVertex(name)] for [name] in the order
    [ord1]. *)
Definition addVertices (g : graph.Graph) (ord1 : list string) : graph.Graph :=
  foldl (fun g name => (graph.AddVertex g name).1) g ord1.

(** The inner loop: [_ = g.AddEdge(name, dep)] over [DependsOn]. *)
Definition addEdgesOf (g : graph.Graph) (name : string) (deps : list string) : graph.Graph :=
  foldl (fun g dep => (graph.AddEdge g name dep).1) g deps.

(** The second loop over [app.Services], in the order [ord2]. *)
Definition addEdges (app : Compose) (g : graph.Graph) (ord2 : list string) : graph.Graph :=
  foldl (fun g name => addEdgesOf g name (dependsOn app name)) g ord2.

Definition buildDag (app : Compose) (ord1 ord2 : list string) : graph.Graph :=
  let g := graph.New [graph.Directed; graph.Acyclic] in
  let g := addVertices g ord1 in
  addEdges app g ord2.

(** [PersistentPreRunE] from [g := graph.New(...)] to [return nil]: the
    model with [app.Dag] set and the error returned.  No call of this part
    leaves the process; the debug output is left out. *)
Definition PersistentPreRunE_dag (app : Compose) (ord1 ord2 : list string)
  : Compose * option error :=
  let g := buildDag app ord1 ord2 in
  ({| ComposeProject := ComposeProject app;
      Network := Network app;
      Services := Services app;
      Remote := Remote app;
      Dag := Some g |}, None).

End cmd.

Import application.

(** ** Reading a trace *)

Definition isCreate (e : Event) : bool :=
  match e with EvCreateNetwork _ _ _ => true | _ => false end.

Definition isDelete (e : Event) : bool :=
  match e with EvDeleteNetwork _ _ _ => true | _ => false end.

(** The error a call returned, if any. *)
Definition failure (e : Event) : option error :=
  match e with
  | EvParseServers _ _ err => err
  | EvCreateNetwork _ _ err => err
  | EvDeleteNetwork _ _ err => err
  end.

Definition panics {A S : Type} (r : Res A * S) : Prop :=
  exists msg, r.1 = Panic msg.

Definition nonExternal (kn : string * types.NetworkConfig) : bool :=
  negb (types.External kn.2).

(** ** The precedence rule, in the words of the specification *)

(** The string an extension value reads as, when it can be read as one; nil
    reads as the empty string, the value a Go string has before anything
    is stored in it. *)
Definition readable (v : types.ExtValue) : option string :=
  match v with
  | types.ExtString s => Some s
  | types.ExtNil => Some ""
  | types.ExtOther => None
  end.

(** The override when it is present and readable, the default otherwise. *)
Definition effective (override : option types.ExtValue) (default : string) : string :=
  match override ≫= readable with
  | Some s => s
  | None => default
  end.

Definition effectiveType (c : application.Compose) (n : types.NetworkConfig) : string :=
  effective (types.Extensions n !! "x-incus-type") (application.Type_ (application.Network c)).

Definition effectiveUplink (c : application.Compose) (n : types.NetworkConfig) : string :=
  effective (types.Extensions n !! "x-incus-uplink") (application.Uplink (application.Network c)).

(** The create request the specification describes for network [n]. *)
Definition expectedRequest (c : application.Compose) (n : types.NetworkConfig)
  : api.NetworksPost :=
  {| api.Name := types.Name n;
     api.Type_ := effectiveType c n;
     api.Config := if decide (effectiveType c n = "ovn")
                   then {["network" := effectiveUplink c n]} else ∅;
     api.Description := "" |}.

(** ** The batches and the graph, in the words of the specification *)

(** Event [ev] is the one successful create call for network [kn]: on the
    first endpoint its name resolves to, with the expected request. *)
Definition createdFor {W : Type} (env : Env W) (c : Compose)
    (kn : string * types.NetworkConfig) (ev : Event) : Prop :=
  exists resource resources,
    ParseServers env (types.Name kn.2) = (resource :: resources, None)
    /\ ev = EvCreateNetwork (server resource) (expectedRequest c kn.2) None.

(** Event [ev] is the one delete call for network [kn]: on the first
    endpoint its name resolves to, for the name resolved there. *)
Definition deletedFor {W : Type} (env : Env W)
    (kn : string * types.NetworkConfig) (ev : Event) : Prop :=
  exists resource resources err,
    (ParseServers env (types.Name kn.2)).1 = resource :: resources
    /\ ev = EvDeleteNetwork (server resource) (name resource) err.

(** Network [kn] is not external and its name resolves to no endpoint. *)
Definition unresolved {W : Type} (env : Env W) (kn : string * types.NetworkConfig) : Prop :=
  types.External kn.2 = false /\ (ParseServers env (types.Name kn.2)).1 = [].

(** The graph as the specification describes it: one vertex per declared
    service, one edge from each service to each of its declared
    dependencies, and nothing else. *)
Definition declaredGraph (app : Compose) (g : graph.Graph) : Prop :=
  graph.vertices g = dom (Services app)
  /\ forall name dep,
       (name, dep) ∈ graph.edges g <->
       exists svc, Services app !! name = Some svc /\ dep ∈ DependsOn svc.

(** Service [a] declares a dependency on [b]. *)
Definition declares (app : Compose) (a b : string) : Prop :=
  b ∈ cmd.dependsOn app a.

(** Service [a] is on a dependency cycle. *)
Definition onCycle (app : Compose) (a : string) : Prop :=
  tc (declares app) a a.

(** Every declared dependency is a declared service. *)
Definition closedServices (app : Compose) : Prop :=
  forall name svc dep,
    Services app !! name = Some svc -> dep ∈ DependsOn svc -> dep ∈ dom (Services app).

(** ** More words for the batches *)

(** The call [ev] returned no error. *)
Definition succeeded (ev : Event) : Prop := failure ev = None.

(** Event [ev] is a create call for network [kn], whatever it returned: on
    the first endpoint its name resolves to, with the expected request. *)
Definition createAttempt {W : Type} (env : Env W) (c : Compose)
    (kn : string * types.NetworkConfig) (ev : Event) : Prop :=
  exists resource resources err,
    ParseServers env (types.Name kn.2) = (resource :: resources, None)
    /\ ev = EvCreateNetwork (server resource) (expectedRequest c kn.2) err.



(** ** Sample models and remote sides *)
Module sample.
Import application.

Definition net_a : types.NetworkConfig :=
  {| types.Name := "net-a"; types.External := false;
     types.Extensions := {["x-incus-type" := types.ExtString "bridge"]} |}.

Definition net_b : types.NetworkConfig :=
  {| types.Name := "net-b"; types.External := false;
     types.Extensions := {["x-incus-type" := types.ExtString "ovn";
                           "x-incus-uplink" := types.ExtString "up0"]} |}.

Definition net_ext : types.NetworkConfig :=
  {| types.Name := "net-ext"; types.External := true; types.Extensions := ∅ |}.

Definition service (deps : list string) : Service := {| DependsOn := deps |}.

Definition compose (nets : list (string * types.NetworkConfig))
    (svcs : list (string * Service)) : Compose :=
  {| ComposeProject := {| types.Networks := list_to_map nets |};
     Network := {| Type_ := "bridge"; Uplink := "UPLINK" |};
     Services := list_to_map svcs;
     Remote := "";
     Dag := None |}.

Definition two_nets : list (string * types.NetworkConfig) :=
  [("a", net_a); ("b", net_b)].

Definition three_nets : list (string * types.NetworkConfig) :=
  [("a", net_a); ("ext", net_ext); ("b", net_b)].

(** Every name resolves to itself on the one endpoint ["local"]. *)
Definition resolveLocal (remote : string) : list remoteResource * option error :=
  ([{| server := "local"; name := remote |}], None).

(** ["net-a"] resolves to nothing, with an error. *)
Definition resolveFails (remote : string) : list remoteResource * option error :=
  if decide (remote = "net-a") then ([], Some (ErrMsg "unknown remote"))
  else resolveLocal remote.

(** ["net-a"] resolves to an endpoint, and with an error. *)
Definition resolveWarns (remote : string) : list remoteResource * option error :=
  if decide (remote = "net-a")
  then ([{| server := "local"; name := remote |}], Some (ErrMsg "ambiguous remote"))
  else resolveLocal remote.

(** ["net-a"] resolves to no endpoint, without an error. *)
Definition resolveEmpty (remote : string) : list remoteResource * option error :=
  if decide (remote = "net-a") then ([], None) else resolveLocal remote.

(** The remote side counts the calls it has answered. *)
Definition envOk (resolve : string -> list remoteResource * option error) : Env nat :=
  {| ParseServers := resolve;
     CreateNetwork := fun _ _ w => (None, S w);
     DeleteNetwork := fun _ _ w => (None, S w) |}.

(** Creating or deleting ["net-a"] fails. *)
Definition envNetAFails : Env nat :=
  {| ParseServers := resolveLocal;
     CreateNetwork := fun _ req w =>
       (if decide (api.Name req = "net-a") then Some (ErrMsg "create failed") else None, S w);
     DeleteNetwork := fun _ n w =>
       (if decide (n = "net-a") then Some (ErrMsg "delete failed") else None, S w) |}.

Definition start : State nat := {| world := 0; trace := [] |}.

Definition cyclic : Compose :=
  compose [] [("A", service ["B"]); ("B", service ["A"])].

Definition ghostly : Compose :=
  compose [] [("x", service ["ghost"])].

Definition chain : Compose :=
  compose [] [("db", service []); ("api", service ["db"]); ("web", service ["api"])].

End sample.

(** ** More sample models *)
Module more.
Import application.

(** The chain db, api, web with dependencies repeated and out of order. *)
Definition chainRepeated : Compose :=
  sample.compose []
    [("db", sample.service []);
     ("api", sample.service ["db"; "db"]);
     ("web", sample.service ["api"; "ghost"; "api"])].

(** The same dependencies, each listed once. *)
Definition chainOnce : Compose :=
  sample.compose []
    [("db", sample.service []);
     ("api", sample.service ["db"]);
     ("web", sample.service ["ghost"; "api"])].

(** The settings of a run with [--network-type ovn --network-uplink up1]. *)
Definition ovnSettings (key : string) : string :=
  if decide (key = "network.type") then "ovn"
  else if decide (key = "network.uplink") then "up1"
  else "".

(** One network without extensions. *)
Definition plainNets : list (string * types.NetworkConfig) :=
  [("p", {| types.Name := "plain"; types.External := false; types.Extensions := ∅ |})].

(** An environment in which LOG_LEVEL is set to a word in mixed case. *)
Definition mixedCaseEnv (key : string) : string :=
  if decide (key = "LOG_LEVEL") then "DeBuG" else "".

End more.

(** ** [cmd/root.go]: the rest of [PersistentPreRunE] and the logging hook *)
Module rootcmd.
Import application.

(** *** The settings taken from viper *)

(** [PersistentPreRunE] from [app.Network.Type = ...] to [app.Remote = ...]:
    [GetString] is [viper.GetString], which resolves a key from the flags,
    the environment and the configuration file. *)
Definition PersistentPreRunE_settings (GetString : string -> string) (app : Compose)
  : Compose :=
  {| ComposeProject := ComposeProject app;
     Network := {| Type_ := GetString "network.type";
                   Uplink := GetString "network.uplink" |};
     Services := Services app;
     Remote := GetString "remote";
     Dag := Dag app |}.

(** [PersistentPreRunE] from the settings to [return nil]. *)
Definition PersistentPreRunE_app (GetString : string -> string) (app : Compose)
    (ord1 ord2 : list string) : Compose * option error :=
  cmd.PersistentPreRunE_dag (PersistentPreRunE_settings GetString app) ord1 ord2.

(** *** The log level *)

(** [slog.Level] and its four named levels. *)
Definition LevelDebug : Z := (-4)%Z.
Definition LevelInfo : Z := 0%Z.
Definition LevelWarn : Z := 4%Z.
Definition LevelError : Z := 8%Z.

(** A Go string is a sequence of bytes, here a [string] of [ascii]. *)
Fixpoint allBytes (p : ascii -> bool) (s : string) : bool :=
  match s with
  | EmptyString => true
  | String c s => p c && allBytes p s
  end.

Fixpoint anyBytes (p : ascii -> bool) (s : string) : bool :=
  match s with
  | EmptyString => false
  | String c s => p c || anyBytes p s
  end.

Fixpoint mapBytes (f : ascii -> ascii) (s : string) : string :=
  match s with
  | EmptyString => EmptyString
  | String c s => String (f c) (mapBytes f s)
  end.

(** [c < utf8.RuneSelf]. *)
Definition isASCII (c : ascii) : bool := (nat_of_ascii c <? 128)%nat.

(** ['A' <= c && c <= 'Z']. *)
Definition isUpper (c : ascii) : bool :=
  ((65 <=? nat_of_ascii c) && (nat_of_ascii c <=? 90))%nat.

(** [c += 'a' - 'A'] for an upper-case letter. *)
Definition lowerByte (c : ascii) : ascii :=
  if isUpper c then ascii_of_nat (nat_of_ascii c + 32) else c.

(** [strings.ToLower]: a string of ASCII bytes is returned as it is when
    it has no upper-case letter and with its upper-case letters lowered
    otherwise; any other string goes through [unicodeLower], which stands
    for [strings.Map(unicode.ToLower, s)]. *)
Definition strings_ToLower (unicodeLower : string -> string) (s : string) : string :=
  let isASCII := allBytes isASCII s in
  let hasUpper := anyBytes isUpper s in
  if isASCII then
    if negb hasUpper then s else mapBytes lowerByte s
  else unicodeLower s.

(** [getLogLevelFromEnv]; [Getenv] is [os.Getenv]. *)
Definition getLogLevelFromEnv (Getenv : string -> string) (unicodeLower : string -> string)
  : Z :=
  let levelStr := Getenv "LOG_LEVEL" in
  let lowered := strings_ToLower unicodeLower levelStr in
  if decide (lowered = "debug") then LevelDebug
  else if decide (lowered = "info") then LevelInfo
  else if decide (lowered = "warn") then LevelWarn
  else if decide (lowered = "error") then LevelError
  else LevelInfo.

(** [globalPreRunHook]: the level [logLevel] is set to; [debug] is the
    [--verbose] flag. Installing the handler is left out. *)
Definition globalPreRunHook (debug : bool) (Getenv : string -> string)
    (unicodeLower : string -> string) : Z :=
  if debug then LevelDebug
  else getLogLevelFromEnv Getenv unicodeLower.

(** *** The configuration directory and the cache directory *)

(** The process environment, the file system [FS] and the library calls
    that the first part of [PersistentPreRunE] makes. *)
Record OS (FS : Type) : Type := {
  Getenv : string -> string;
  PathExists : string -> FS -> bool;            (* util.PathExists *)
  user_Current : error + string;                (* the error, or user.HomeDir *)
  MkdirAll : string -> FS -> option error * FS; (* os.MkdirAll(path, 0700) *)
  IsExist : error -> bool;                      (* os.IsExist *)
  path_Join : list string -> string;            (* path.Join *)
  ExpandEnv : string -> string;                 (* os.ExpandEnv *)
  filepath_Dir : string -> string;              (* filepath.Dir *)
  LoadConfig_error : string -> FS -> option error; (* the error of config.LoadConfig *)
}.
Arguments Getenv {FS} _ _.
Arguments PathExists {FS} _ _ _.
Arguments user_Current {FS} _.
Arguments MkdirAll {FS} _ _ _.
Arguments IsExist {FS} _ _.
Arguments path_Join {FS} _ _.
Arguments ExpandEnv {FS} _ _.
Arguments filepath_Dir {FS} _ _.
Arguments LoadConfig_error {FS} _ _ _.

(** Where a [config.Config] comes from. *)
Inductive ConfigOrigin : Type :=
| NewConfig (configDir : string) (defaults : bool)
| LoadConfig (path : string).

Record Config : Type := {
  origin : ConfigOrigin;
  CacheDir : string;
}.

(** "Figure out the config directory". *)
Definition configDir {FS : Type} (os : OS FS) (fs : FS) : error + string :=
  if negb (String.eqb (Getenv os "INCUS_CONF") "") then inr (Getenv os "INCUS_CONF")
  else if negb (String.eqb (Getenv os "HOME") "") && PathExists os (Getenv os "HOME") fs
  then inr (path_Join os [Getenv os "HOME"; ".config"; "incus"])
  else
    match user_Current os with
    | inl err => inl err
    | inr HomeDir =>
        if PathExists os HomeDir fs
        then inr (path_Join os [HomeDir; ".config"; "incus"])
        else inr ""
    end.

(** "Figure out a potential cache path". *)
Definition cachePath {FS : Type} (os : OS FS) (fs : FS) : error + string :=
  if negb (String.eqb (Getenv os "INCUS_CACHE") "") then inr (Getenv os "INCUS_CACHE")
  else if negb (String.eqb (Getenv os "HOME") "") && PathExists os (Getenv os "HOME") fs
  then inr (path_Join os [Getenv os "HOME"; ".cache"; "incus"])
  else
    match user_Current os with
    | inl err => inl err
    | inr HomeDir =>
        if PathExists os HomeDir fs
        then inr (path_Join os [HomeDir; ".cache"; "incus"])
        else inr ""
    end.

(** What the first part of [PersistentPreRunE] leaves in the package
    variables [conf], [forceLocal] and [confPath]. *)
Record Loaded : Type := {
  conf : Config;
  forceLocal : bool;
  confPath : string;
}.

(** [PersistentPreRunE] up to [conf.CacheDir = cachePath]: the error
    returned or the variables set, and the file system afterwards. *)
Definition PersistentPreRunE_conf {FS : Type} (os : OS FS) (forceLocal0 : bool) (fs : FS)
  : (error + Loaded) * FS :=
  match configDir os fs with
  | inl err => (inl err, fs)
  | inr configDir =>
      match cachePath os fs with
      | inl err => (inl err, fs)
      | inr cachePath =>
          let '(cachePath, fs) :=
            if negb (String.eqb cachePath "") then
              let '(err, fs) := MkdirAll os cachePath fs in
              match err with
              | Some e => if negb (IsExist os e) then ("", fs) else (cachePath, fs)
              | None => (cachePath, fs)
              end
            else (cachePath, fs) in
          let forceLocal := if String.eqb configDir "" then true else forceLocal0 in
          let confPath := ExpandEnv os (path_Join os [configDir; "config.yml"]) in
          if forceLocal then
            (inr {| conf := {| origin := NewConfig "" true; CacheDir := cachePath |};
                    forceLocal := forceLocal; confPath := confPath |}, fs)
          else if PathExists os confPath fs then
            match LoadConfig_error os confPath fs with
            | Some err => (inl err, fs)
            | None =>
                (inr {| conf := {| origin := LoadConfig confPath; CacheDir := cachePath |};
                        forceLocal := forceLocal; confPath := confPath |}, fs)
            end
          else
            (inr {| conf := {| origin := NewConfig (filepath_Dir os confPath) true;
                               CacheDir := cachePath |};
                    forceLocal := forceLocal; confPath := confPath |}, fs)
      end
  end.

End rootcmd.

(** Two strings are the same up to the case of their ASCII letters. *)
Definition foldsTo (c d : ascii) : bool :=
  bool_decide (c = d)
  || (rootcmd.isUpper c && (nat_of_ascii d =? nat_of_ascii c + 32)%nat)
  || (rootcmd.isUpper d && (nat_of_ascii c =? nat_of_ascii d + 32)%nat).

Fixpoint sameLetters (s t : string) : bool :=
  match s, t with
  | EmptyString, EmptyString => true
  | String c s, String d t => foldsTo c d && sameLetters s t
  | _, _ => false
  end.

(** HOME names a directory that exists. *)
Definition usableHome {FS : Type} (os : rootcmd.OS FS) (fs : FS) : bool :=
  negb (String.eqb (rootcmd.Getenv os "HOME") "")
  && rootcmd.PathExists os (rootcmd.Getenv os "HOME") fs.


(** A system described by its environment, the directories that exist
    and the current user; nothing fails on it. *)
Definition sampleOS (env : list (string * string)) (dirs : list string)
    (user : error + string) : rootcmd.OS unit :=
  {| rootcmd.Getenv := fun k => default "" (list_to_map (M := gmap string string) env !! k);
     rootcmd.PathExists := fun p _ => bool_decide (p ∈ dirs);
     rootcmd.user_Current := user;
     rootcmd.MkdirAll := fun _ fs => (None, fs);
     rootcmd.IsExist := fun _ => false;
     rootcmd.path_Join := String.concat "/";
     rootcmd.ExpandEnv := fun p => p;
     rootcmd.filepath_Dir := fun p => p;
     rootcmd.LoadConfig_error := fun _ _ => None |}.

(** Sample systems. *)
Module systems.



(** Nothing set, and the home directory of the user does not exist. *)
Definition homeless : rootcmd.OS unit :=
  sampleOS [] [] (inr "/home/u").

(** A home directory that holds a configuration file. *)
Definition configured : rootcmd.OS unit :=
  sampleOS [("HOME", "/home/u")] ["/home/u"; "/home/u/.config/incus/config.yml"]
    (inr "/home/u").

End systems.

(** * Properties of the network batches *)

Ltac unfold_calls :=
  unfold bind, ret, emit, callParseServers, callCreateNetwork, callDeleteNetwork,
    index0 in *; simpl in *.

Section Loops.
Context {W : Type} (env : Env W) (c : Compose).

(** One pass of the create loop over a non-external network. *)
Lemma CreateNetworks_loop_cons key network rest s :
  types.External network = false ->
  CreateNetworks_loop env c ((key, network) :: rest) s =
    let '(nettype, uplink) := networkSettings c network in
    let apiNetwork := networkRequest network nettype uplink in
    let '(resources, err) := ParseServers env (types.Name network) in
    let s1 := Build_State (world s)
                (trace s ++ [EvParseServers (types.Name network) resources err]) in
    match err, resources with
    | Some e, _ => (Val (Some e), s1)
    | None, [] => (Panic "index out of range [0] with length 0", s1)
    | None, resource :: _ =>
        let '(err, w) := CreateNetwork env (server resource) apiNetwork (world s) in
        let s2 := Build_State w
                    (trace s1 ++ [EvCreateNetwork (server resource) apiNetwork err]) in
        match err with
        | Some e => (Val (Some e), s2)
        | None => CreateNetworks_loop env c rest s2
        end
    end.
Proof.
  intros Hext. simpl. rewrite Hext.
  destruct (networkSettings c network) as [nettype uplink].
  unfold_calls.
  destruct (ParseServers env (types.Name network)) as [resources [e|]]; simpl; [done|].
  destruct resources as [|resource resources]; simpl; [done|].
  destruct (CreateNetwork env (server resource) _ (world s)) as [[e|] w]; done.
Qed.

(** One pass of the destroy loop over a non-external network. *)
Lemma DestroyNetworks_loop_cons key network rest funcError s :
  types.External network = false ->
  DestroyNetworks_loop env c ((key, network) :: rest) funcError s =
    let '(resources, err) := ParseServers env (types.Name network) in
    let s1 := Build_State (world s)
                (trace s ++ [EvParseServers (types.Name network) resources err]) in
    let funcError1 :=
      match err with
      | Some e => errors_Join [funcError; Some e]
      | None => funcError
      end in
    match resources with
    | [] => (Panic "index out of range [0] with length 0", s1)
    | resource :: _ =>
        let '(err, w) := DeleteNetwork env (server resource) (name resource) (world s) in
        let s2 := Build_State w
                    (trace s1 ++ [EvDeleteNetwork (server resource) (name resource) err]) in
        DestroyNetworks_loop env c rest
          match err with
          | Some e => errors_Join [funcError1; Some e]
          | None => funcError1
          end s2
    end.
Proof.
  intros Hext. simpl. rewrite Hext.
  unfold_calls.
  destruct (ParseServers env (types.Name network)) as [resources err]; simpl.
  destruct resources as [|resource resources]; simpl; [done|].
  destruct (DeleteNetwork env (server resource) _ (world s)) as [err' w]; done.
Qed.

Lemma CreateNetworks_loop_external key network rest s :
  types.External network = true ->
  CreateNetworks_loop env c ((key, network) :: rest) s = CreateNetworks_loop env c rest s.
Proof. intros Hext. simpl. by rewrite Hext. Qed.

Lemma DestroyNetworks_loop_external key network rest funcError s :
  types.External network = true ->
  DestroyNetworks_loop env c ((key, network) :: rest) funcError s =
  DestroyNetworks_loop env c rest funcError s.
Proof. intros Hext. simpl. by rewrite Hext. Qed.

(** The create loop over [l1 ++ l2] is the loop over [l1] and, when that
    returned nil, the loop over [l2]. *)
Lemma CreateNetworks_loop_app l1 l2 s :
  CreateNetworks_loop env c (l1 ++ l2) s =
    match CreateNetworks_loop env c l1 s with
    | (Val None, s1) => CreateNetworks_loop env c l2 s1
    | r => r
    end.
Proof.
  revert s. induction l1 as [|[key network] l1 IH]; intros s; [done|].
  rewrite <- app_comm_cons.
  destruct (types.External network) eqn:Hext.
  - rewrite !CreateNetworks_loop_external by done. apply IH.
  - rewrite !CreateNetworks_loop_cons by done.
    destruct (networkSettings c network) as [nettype uplink]; simpl.
    destruct (ParseServers env (types.Name network)) as [resources [e|]]; [done|].
    destruct resources as [|resource resources]; [done|].
    destruct (CreateNetwork env (server resource) _ (world s)) as [[e|] w]; [done|].
    apply IH.
Qed.

(** The destroy loop over [l1 ++ l2] hands its accumulator on. *)
Lemma DestroyNetworks_loop_app l1 l2 funcError s :
  DestroyNetworks_loop env c (l1 ++ l2) funcError s =
    match DestroyNetworks_loop env c l1 funcError s with
    | (Val funcError1, s1) => DestroyNetworks_loop env c l2 funcError1 s1
    | (Panic msg, s1) => (Panic msg, s1)
    end.
Proof.
  revert funcError s. induction l1 as [|[key network] l1 IH]; intros funcError s; [done|].
  rewrite <- app_comm_cons.
  destruct (types.External network) eqn:Hext.
  - rewrite !DestroyNetworks_loop_external by done. apply IH.
  - rewrite !DestroyNetworks_loop_cons by done.
    destruct (ParseServers env (types.Name network)) as [resources err]; simpl.
    destruct resources as [|resource resources]; [done|].
    destruct (DeleteNetwork env (server resource) _ (world s)) as [err' w].
    apply IH.
Qed.

End Loops.

(** ** External networks *)

(** C4. A network marked external adds nothing to a create batch or to a
    destroy batch: with the network anywhere in the iteration order, both
    operations end exactly as they do without it, in the same state of the
    remote side and with the same log of calls; neither a resolution nor a
    create or delete call is made for it. *)
Theorem external_network_is_skipped :
  forall (W : Type) (env : Env W) (c : Compose)
         (before after : list (string * types.NetworkConfig))
         (key : string) (network : types.NetworkConfig) (s : State W),
    types.External network = true ->
    CreateNetworks env c (before ++ (key, network) :: after) s =
      CreateNetworks env c (before ++ after) s
    /\ DestroyNetworks env c (before ++ (key, network) :: after) s =
      DestroyNetworks env c (before ++ after) s.
Proof.
  intros W env c before after key network s Hext.
  unfold CreateNetworks, DestroyNetworks. split.
  - rewrite !CreateNetworks_loop_app.
    destruct (CreateNetworks_loop env c before s) as [[[e|]|msg] s1]; try done.
    by apply CreateNetworks_loop_external.
  - rewrite !DestroyNetworks_loop_app.
    destruct (DestroyNetworks_loop env c before None s) as [[e|msg] s1]; try done.
    by apply DestroyNetworks_loop_external.
Qed.

Lemma external_network_is_skipped_witness :
  CreateNetworks (sample.envOk sample.resolveLocal) (sample.compose sample.three_nets [])
      ([("a", sample.net_a)] ++ ("ext", sample.net_ext) :: [("b", sample.net_b)]) sample.start =
    CreateNetworks (sample.envOk sample.resolveLocal) (sample.compose sample.three_nets [])
      ([("a", sample.net_a)] ++ [("b", sample.net_b)]) sample.start
  /\ DestroyNetworks (sample.envOk sample.resolveLocal) (sample.compose sample.three_nets [])
      ([("a", sample.net_a)] ++ ("ext", sample.net_ext) :: [("b", sample.net_b)]) sample.start =
    DestroyNetworks (sample.envOk sample.resolveLocal) (sample.compose sample.three_nets [])
      ([("a", sample.net_a)] ++ [("b", sample.net_b)]) sample.start.
Proof. apply external_network_is_skipped. reflexivity. Defined.

(** ** The precedence rule *)

Lemma Extensions_Get_effective (e : gmap string types.ExtValue) (key default : string) :
  match types.Extensions_Get e key "" with
  | (true, None, t) => t
  | _ => default
  end = effective (e !! key) default.
Proof.
  unfold types.Extensions_Get, effective.
  destruct (e !! key) as [[s| |]|]; reflexivity.
Qed.

(** C5. The type and the uplink that [CreateNetworks] computes for a
    network are the values of its extensions [x-incus-type] and
    [x-incus-uplink] when those are present and readable, and the run-level
    defaults [c.Network.Type] and [c.Network.Uplink] otherwise. *)
Theorem override_precedence :
  forall (c : Compose) (network : types.NetworkConfig),
    networkSettings c network = (effectiveType c network, effectiveUplink c network).
Proof.
  intros c network. unfold networkSettings, effectiveType, effectiveUplink.
  by rewrite !Extensions_Get_effective.
Qed.

(** The cases of the rule, one by one. *)
Lemma networkSettings_type_override c network s :
  types.Extensions network !! "x-incus-type" = Some (types.ExtString s) ->
  (networkSettings c network).1 = s.
Proof. intros H. rewrite override_precedence. unfold effectiveType. by rewrite H. Qed.

Lemma networkSettings_type_default c network :
  types.Extensions network !! "x-incus-type" = None
  \/ types.Extensions network !! "x-incus-type" = Some types.ExtOther ->
  (networkSettings c network).1 = Type_ (Network c).
Proof.
  intros [H|H]; rewrite override_precedence; unfold effectiveType; by rewrite H.
Qed.

Lemma networkSettings_uplink_override c network s :
  types.Extensions network !! "x-incus-uplink" = Some (types.ExtString s) ->
  (networkSettings c network).2 = s.
Proof. intros H. rewrite override_precedence. unfold effectiveUplink. by rewrite H. Qed.

Lemma networkSettings_uplink_default c network :
  types.Extensions network !! "x-incus-uplink" = None
  \/ types.Extensions network !! "x-incus-uplink" = Some types.ExtOther ->
  (networkSettings c network).2 = Uplink (Network c).
Proof.
  intros [H|H]; rewrite override_precedence; unfold effectiveUplink; by rewrite H.
Qed.

Lemma networkRequest_expected c network :
  networkRequest network (effectiveType c network) (effectiveUplink c network) =
  expectedRequest c network.
Proof.
  unfold networkRequest, expectedRequest. by case_decide.
Qed.

(** ** A successful create batch *)

(** C6. When a create batch returns nil, the calls it has added to the log
    hold exactly one create-network call per non-external network, in the
    order of the iteration: a call on the first endpoint the network's name
    resolves to, whose request carries the network's name, its effective
    type, and a config that maps ["network"] to the effective uplink when
    the type is ["ovn"] and is empty otherwise. *)
Theorem successful_batch_creates_each_network_once :
  forall (W : Type) (env : Env W) (c : Compose)
         (ord : list (string * types.NetworkConfig)) (s s' : State W),
    CreateNetworks env c ord s = (Val None, s') ->
    exists evs,
      trace s' = trace s ++ evs
      /\ Forall2 (createdFor env c) (filter nonExternal ord) (filter isCreate evs).
Proof.
  intros W env c ord. unfold CreateNetworks.
  induction ord as [|[key network] ord IH]; intros s s' Hrun.
  - simpl in Hrun. inversion Hrun; subst. exists []. rewrite app_nil_r. by split.
  - destruct (types.External network) eqn:Hext.
    + rewrite CreateNetworks_loop_external in Hrun by done.
      destruct (IH _ _ Hrun) as (evs & Htr & Hall). exists evs. split; [done|].
      rewrite filter_cons_False; [done|]. unfold nonExternal. simpl. rewrite Hext. intros [].
    + rewrite CreateNetworks_loop_cons in Hrun by done.
      rewrite override_precedence in Hrun. simpl in Hrun.
      rewrite networkRequest_expected in Hrun.
      destruct (ParseServers env (types.Name network)) as [resources [e|]] eqn:Hres; [done|].
      destruct resources as [|resource resources]; [done|].
      destruct (CreateNetwork env (server resource) _ (world s)) as [[e|] w]; [done|].
      destruct (IH _ _ Hrun) as (evs & Htr & Hall). simpl in Htr.
      eexists (_ :: _ :: evs). split.
      * rewrite Htr. rewrite <- !app_assoc. reflexivity.
      * rewrite filter_cons_True by (unfold nonExternal; simpl; by rewrite Hext).
        rewrite filter_cons_False by (simpl; auto).
        rewrite filter_cons_True by done.
        constructor; [|done]. exists resource, resources. simpl. by rewrite Hres.
Qed.

Lemma successful_batch_creates_each_network_once_witness :
  exists evs,
    trace (CreateNetworks (sample.envOk sample.resolveLocal)
             (sample.compose sample.two_nets []) sample.two_nets sample.start).2 =
      trace sample.start ++ evs
    /\ Forall2 (createdFor (sample.envOk sample.resolveLocal)
                  (sample.compose sample.two_nets []))
         (filter nonExternal sample.two_nets) (filter isCreate evs).
Proof.
  apply (successful_batch_creates_each_network_once nat
           (sample.envOk sample.resolveLocal) (sample.compose sample.two_nets [])
           sample.two_nets sample.start).
  vm_compute. reflexivity.
Defined.

(** The scenario of two independent networks, net-a of type bridge and
    net-b of type ovn with uplink up0: two create calls, with these types
    and uplinks. *)
Example create_net_a_net_b :
  filter isCreate
    (trace (CreateNetworks (sample.envOk sample.resolveLocal)
              (sample.compose sample.two_nets []) sample.two_nets sample.start).2) =
  [ EvCreateNetwork "local"
      {| api.Name := "net-a"; api.Type_ := "bridge"; api.Config := ∅;
         api.Description := "" |} None;
    EvCreateNetwork "local"
      {| api.Name := "net-b"; api.Type_ := "ovn";
         api.Config := {["network" := "up0"]}; api.Description := "" |} None ].
Proof. vm_compute. reflexivity. Qed.

(** ** The first endpoint and panics *)

Lemma panics_Val {A S : Type} (a : A) (s : S) : ~ panics (Val a, s).
Proof. intros [msg H]. discriminate. Qed.

Lemma panics_Panic {A S : Type} (msg : string) (s : S) : panics (@Panic A msg, s).
Proof. by exists msg. Qed.

Lemma DestroyNetworks_loop_panics {W : Type} (env : Env W) (c : Compose) ord :
  forall funcError s,
    panics (DestroyNetworks_loop env c ord funcError s) <-> Exists (unresolved env) ord.
Proof.
  induction ord as [|[key network] ord IH]; intros funcError s.
  - simpl. split; [intros H; by apply panics_Val in H | intros H; inversion H].
  - rewrite Exists_cons. destruct (types.External network) eqn:Hext.
    + rewrite DestroyNetworks_loop_external by done. rewrite IH.
      split; [by right|]. intros [[H _]|H]; [|done]. simpl in H. congruence.
    + rewrite DestroyNetworks_loop_cons by done.
      destruct (ParseServers env (types.Name network)) as [resources err] eqn:Hres.
      destruct resources as [|resource resources]; simpl.
      * split; [|intros _; apply panics_Panic].
        intros _. left. split; [done|]. simpl. by rewrite Hres.
      * destruct (DeleteNetwork env (server resource) _ (world s)) as [err' w].
        rewrite IH. split; [by right|]. intros [[_ H]|H]; [|done].
        simpl in H. rewrite Hres in H. discriminate.
Qed.

Lemma CreateNetworks_loop_panics {W : Type} (env : Env W) (c : Compose) ord :
  forall s,
    panics (CreateNetworks_loop env c ord s) ->
    Exists (fun kn => types.External kn.2 = false
                      /\ ParseServers env (types.Name kn.2) = ([], None)) ord.
Proof.
  induction ord as [|[key network] ord IH]; intros s.
  - simpl. intros H. by apply panics_Val in H.
  - rewrite Exists_cons. destruct (types.External network) eqn:Hext.
    + rewrite CreateNetworks_loop_external by done. intros H. right. by eapply IH.
    + rewrite CreateNetworks_loop_cons by done.
      destruct (networkSettings c network) as [nettype uplink]; simpl.
      destruct (ParseServers env (types.Name network)) as [resources [e|]] eqn:Hres.
      * intros H. by apply panics_Val in H.
      * destruct resources as [|resource resources]; [intros _; by left|].
        destruct (CreateNetwork env (server resource) _ (world s)) as [[e|] w].
        -- intros H. by apply panics_Val in H.
        -- intros H. right. by eapply IH.
Qed.

(** C10. Both operations take the first resolved endpoint unchecked.
    [DestroyNetworks] panics exactly when the name of some non-external
    network resolves to an empty list, whether or not [ParseServers] also
    returned an error, and then returns no aggregated error.
    [CreateNetworks] panics at a non-external network whose name resolves to
    an empty list without an error, once the networks before it have been
    created.  When the name of every non-external network resolves to at
    least one endpoint, neither operation panics. *)
Theorem first_endpoint_is_taken_unchecked :
  forall (W : Type) (env : Env W) (c : Compose)
         (ord : list (string * types.NetworkConfig)) (s : State W),
    (panics (DestroyNetworks env c ord s) <-> Exists (unresolved env) ord)
    /\ (forall before key network after s1,
          ord = before ++ (key, network) :: after ->
          CreateNetworks env c before s = (Val None, s1) ->
          types.External network = false ->
          ParseServers env (types.Name network) = ([], None) ->
          panics (CreateNetworks env c ord s))
    /\ (Forall (fun kn => types.External kn.2 = false ->
                          (ParseServers env (types.Name kn.2)).1 <> []) ord ->
        ~ panics (CreateNetworks env c ord s)
        /\ ~ panics (DestroyNetworks env c ord s)).
Proof.
  intros W env c ord s. split; [|split].
  - apply DestroyNetworks_loop_panics.
  - intros before key network after s1 -> Hbefore Hext Hres.
    unfold CreateNetworks in *. rewrite CreateNetworks_loop_app, Hbefore.
    rewrite CreateNetworks_loop_cons by done.
    destruct (networkSettings c network) as [nettype uplink]; simpl.
    rewrite Hres. apply panics_Panic.
  - intros Hall. split; intros Hpanic.
    + apply CreateNetworks_loop_panics in Hpanic.
      apply Exists_exists in Hpanic as (kn & Hin & Hext & Hres).
      rewrite Forall_forall in Hall. apply (Hall kn Hin Hext). by rewrite Hres.
    + apply DestroyNetworks_loop_panics in Hpanic.
      apply Exists_exists in Hpanic as (kn & Hin & Hext & Hres).
      rewrite Forall_forall in Hall. by apply (Hall kn Hin Hext).
Qed.

Lemma first_endpoint_is_taken_unchecked_witness :
  panics (DestroyNetworks (sample.envOk sample.resolveFails)
            (sample.compose sample.two_nets []) sample.two_nets sample.start)
  /\ panics (CreateNetworks (sample.envOk sample.resolveEmpty)
               (sample.compose sample.three_nets [])
               ([("ext", sample.net_ext)] ++ ("a", sample.net_a) :: [("b", sample.net_b)])
               sample.start)
  /\ ~ panics (CreateNetworks (sample.envOk sample.resolveLocal)
                 (sample.compose sample.two_nets []) sample.two_nets sample.start)
  /\ ~ panics (DestroyNetworks (sample.envOk sample.resolveLocal)
                 (sample.compose sample.two_nets []) sample.two_nets sample.start).
Proof.
  split; [|split].
  - apply (first_endpoint_is_taken_unchecked nat (sample.envOk sample.resolveFails)
             (sample.compose sample.two_nets []) sample.two_nets sample.start).
    apply Exists_cons_hd. split; reflexivity.
  - eapply (first_endpoint_is_taken_unchecked nat (sample.envOk sample.resolveEmpty)
              (sample.compose sample.three_nets []) _ sample.start).
    + reflexivity.
    + reflexivity.
    + reflexivity.
    + reflexivity.
  - apply (first_endpoint_is_taken_unchecked nat (sample.envOk sample.resolveLocal)
             (sample.compose sample.two_nets []) sample.two_nets sample.start).
    repeat constructor; simpl; discriminate.
Defined.

(** ** Failures in a batch *)

Lemma causes_errors_Join (funcError : option error) (e : error) :
  causes_opt (errors_Join [funcError; Some e]) = causes_opt funcError ++ causes e.
Proof.
  destruct funcError as [f|]; simpl; by rewrite app_nil_r.
Qed.

(** A destroy batch that returns has gone through the whole batch: one
    delete call per non-external network, and the error it returns wraps
    every error a call of the batch returned, in order. *)
Lemma DestroyNetworks_loop_returns {W : Type} (env : Env W) (c : Compose) ord :
  forall funcError s e s',
    DestroyNetworks_loop env c ord funcError s = (Val e, s') ->
    exists evs,
      trace s' = trace s ++ evs
      /\ Forall2 (deletedFor env) (filter nonExternal ord) (filter isDelete evs)
      /\ causes_opt e =
           causes_opt funcError ++ flat_map (fun ev => causes_opt (failure ev)) evs.
Proof.
  induction ord as [|[key network] ord IH]; intros funcError s e s' Hrun.
  - simpl in Hrun. inversion Hrun; subst. exists []. simpl. by rewrite !app_nil_r.
  - destruct (types.External network) eqn:Hext.
    + rewrite DestroyNetworks_loop_external in Hrun by done.
      destruct (IH _ _ _ _ Hrun) as (evs & Htr & Hall & Hc). exists evs.
      split; [done|]. split; [|done].
      rewrite filter_cons_False; [done|]. unfold nonExternal. simpl. rewrite Hext.
      intros [].
    + rewrite DestroyNetworks_loop_cons in Hrun by done.
      destruct (ParseServers env (types.Name network)) as [resources err] eqn:Hres.
      destruct resources as [|resource resources]; [done|].
      destruct (DeleteNetwork env (server resource) _ (world s)) as [err' w].
      destruct (IH _ _ _ _ Hrun) as (evs & Htr & Hall & Hc). simpl in Htr.
      eexists (_ :: _ :: evs). split; [|split].
      * rewrite Htr. rewrite <- !app_assoc. reflexivity.
      * rewrite filter_cons_True by (unfold nonExternal; simpl; by rewrite Hext).
        rewrite filter_cons_False by (simpl; auto).
        rewrite filter_cons_True by done.
        constructor; [|done]. exists resource, resources, err'. simpl. by rewrite Hres.
      * rewrite Hc. simpl.
        destruct err as [e0|], err' as [e1|]; simpl;
          rewrite ?causes_errors_Join, <- ?app_assoc; reflexivity.
Qed.

(** C1 as stated fails: with two independent non-external networks and a
    remote side on which creating net-a fails, [CreateNetworks] returns that
    one error right after the failed call; net-b is neither resolved nor
    created, and nothing is aggregated. *)
Lemma create_failure_ends_the_batch :
  CreateNetworks sample.envNetAFails (sample.compose sample.two_nets [])
    sample.two_nets sample.start =
  (Val (Some (ErrMsg "create failed")),
   {| world := 1;
      trace :=
        [ EvParseServers "net-a" [{| server := "local"; name := "net-a" |}] None;
          EvCreateNetwork "local"
            {| api.Name := "net-a"; api.Type_ := "bridge"; api.Config := ∅;
               api.Description := "" |}
            (Some (ErrMsg "create failed")) ] |}).
Proof. vm_compute. reflexivity. Qed.

(** C1, amended. In a create batch, once the networks before it have been
    created, a non-external network whose create call fails ends the batch:
    [CreateNetworks] returns the error of that call as it is, the log ends
    with that call, and the networks after it in the iteration are not
    attempted. *)
Theorem create_failure_returns_at_once :
  forall (W : Type) (env : Env W) (c : Compose)
         (before after : list (string * types.NetworkConfig))
         (key : string) (network : types.NetworkConfig)
         (resource : remoteResource) (resources : list remoteResource)
         (e : error) (w : W) (s s1 : State W),
    CreateNetworks env c before s = (Val None, s1) ->
    types.External network = false ->
    ParseServers env (types.Name network) = (resource :: resources, None) ->
    CreateNetwork env (server resource) (expectedRequest c network) (world s1) = (Some e, w) ->
    CreateNetworks env c (before ++ (key, network) :: after) s =
      (Val (Some e),
       Build_State w
         (trace s1 ++ [EvParseServers (types.Name network) (resource :: resources) None;
                       EvCreateNetwork (server resource) (expectedRequest c network) (Some e)])).
Proof.
  intros W env c before after key network resource resources e w s s1
         Hbefore Hext Hres Hcreate.
  unfold CreateNetworks in *.
  rewrite CreateNetworks_loop_app, Hbefore.
  rewrite CreateNetworks_loop_cons by done.
  rewrite override_precedence. simpl. rewrite networkRequest_expected, Hres, Hcreate.
  by rewrite <- app_assoc.
Qed.

Lemma create_failure_returns_at_once_witness :
  CreateNetworks sample.envNetAFails (sample.compose sample.two_nets [])
    ([] ++ ("a", sample.net_a) :: [("b", sample.net_b)]) sample.start =
  (Val (Some (ErrMsg "create failed")),
   Build_State 1
     (trace sample.start ++
      [EvParseServers "net-a" [{| server := "local"; name := "net-a" |}] None;
       EvCreateNetwork "local"
         (expectedRequest (sample.compose sample.two_nets []) sample.net_a)
         (Some (ErrMsg "create failed"))])).
Proof.
  apply (create_failure_returns_at_once nat sample.envNetAFails
           (sample.compose sample.two_nets []) [] [("b", sample.net_b)] "a" sample.net_a
           {| server := "local"; name := "net-a" |} [] (ErrMsg "create failed") 1
           sample.start sample.start).
  - reflexivity.
  - reflexivity.
  - reflexivity.
  - vm_compute. reflexivity.
Defined.

(** On the same remote side [DestroyNetworks] goes on after the failed
    delete of net-a, deletes net-b and returns the joined error. *)
Example destroy_failure_is_aggregated :
  DestroyNetworks sample.envNetAFails (sample.compose sample.two_nets [])
    sample.two_nets sample.start =
  (Val (Some (ErrJoin [ErrMsg "delete failed"])),
   {| world := 2;
      trace :=
        [ EvParseServers "net-a" [{| server := "local"; name := "net-a" |}] None;
          EvDeleteNetwork "local" "net-a" (Some (ErrMsg "delete failed"));
          EvParseServers "net-b" [{| server := "local"; name := "net-b" |}] None;
          EvDeleteNetwork "local" "net-b" None ] |}).
Proof. vm_compute. reflexivity. Qed.

(** C7 as stated fails: with two independent non-external networks of
    which net-a fails to resolve (no endpoint, and an error),
    [CreateNetworks] returns the resolution error at once and
    [DestroyNetworks] ends on the empty endpoint list; in both, net-b is
    never attempted. *)
Lemma resolution_failure_ends_the_batch :
  CreateNetworks (sample.envOk sample.resolveFails) (sample.compose sample.two_nets [])
    sample.two_nets sample.start =
  (Val (Some (ErrMsg "unknown remote")),
   {| world := 0;
      trace := [ EvParseServers "net-a" [] (Some (ErrMsg "unknown remote")) ] |})
  /\ DestroyNetworks (sample.envOk sample.resolveFails) (sample.compose sample.two_nets [])
       sample.two_nets sample.start =
     (Panic "index out of range [0] with length 0",
      {| world := 0;
         trace := [ EvParseServers "net-a" [] (Some (ErrMsg "unknown remote")) ] |}).
Proof. split; vm_compute; reflexivity. Qed.

(** C7, amended. In a create batch, a failure to resolve one network's
    endpoint ends the batch: once the networks before it have been created,
    [CreateNetworks] returns the resolution error as it is, right after the
    resolution, and the networks after it are not attempted. In a destroy
    batch the resolution error is joined into the aggregated error:
    whenever [DestroyNetworks] returns, a delete call has been made for
    every non-external network of the batch and the error returned wraps
    every error a resolution or a delete call of the batch returned. *)
Theorem resolution_failure_in_a_batch :
  forall (W : Type) (env : Env W) (c : Compose)
         (ord : list (string * types.NetworkConfig)) (s : State W),
    (forall before key network after resources e s1,
       ord = before ++ (key, network) :: after ->
       CreateNetworks env c before s = (Val None, s1) ->
       types.External network = false ->
       ParseServers env (types.Name network) = (resources, Some e) ->
       CreateNetworks env c ord s =
         (Val (Some e),
          Build_State (world s1)
            (trace s1 ++ [EvParseServers (types.Name network) resources (Some e)])))
    /\ (forall e s',
          DestroyNetworks env c ord s = (Val e, s') ->
          exists evs,
            trace s' = trace s ++ evs
            /\ Forall2 (deletedFor env) (filter nonExternal ord) (filter isDelete evs)
            /\ causes_opt e = flat_map (fun ev => causes_opt (failure ev)) evs).
Proof.
  intros W env c ord s. split.
  - intros before key network after resources e s1 -> Hbefore Hext Hres.
    unfold CreateNetworks in *.
    rewrite CreateNetworks_loop_app, Hbefore.
    rewrite CreateNetworks_loop_cons by done.
    destruct (networkSettings c network) as [nettype uplink]; simpl.
    by rewrite Hres.
  - intros e s' Hrun. unfold DestroyNetworks in Hrun.
    by apply DestroyNetworks_loop_returns in Hrun.
Qed.

Lemma resolution_failure_in_a_batch_witness :
  CreateNetworks (sample.envOk sample.resolveFails) (sample.compose sample.two_nets [])
    ([] ++ ("a", sample.net_a) :: [("b", sample.net_b)]) sample.start =
    (Val (Some (ErrMsg "unknown remote")),
     Build_State 0
       (trace sample.start ++ [EvParseServers "net-a" [] (Some (ErrMsg "unknown remote"))]))
  /\ exists evs,
       trace (DestroyNetworks (sample.envOk sample.resolveWarns)
                (sample.compose sample.two_nets []) sample.two_nets sample.start).2 =
         trace sample.start ++ evs
       /\ Forall2 (deletedFor (sample.envOk sample.resolveWarns))
            (filter nonExternal sample.two_nets) (filter isDelete evs)
       /\ causes_opt (Some (ErrJoin [ErrMsg "ambiguous remote"])) =
            flat_map (fun ev => causes_opt (failure ev)) evs.
Proof.
  split.
  - apply (proj1 (resolution_failure_in_a_batch nat (sample.envOk sample.resolveFails)
                    (sample.compose sample.two_nets [])
                    ([] ++ ("a", sample.net_a) :: [("b", sample.net_b)]) sample.start)
             [] "a" sample.net_a [("b", sample.net_b)] [] (ErrMsg "unknown remote")
             sample.start).
    + reflexivity.
    + reflexivity.
    + reflexivity.
    + reflexivity.
  - apply (proj2 (resolution_failure_in_a_batch nat (sample.envOk sample.resolveWarns)
                    (sample.compose sample.two_nets []) sample.two_nets sample.start)).
    vm_compute. reflexivity.
Defined.

(** * Properties of the dependency graph *)

Section Graph.
Import graph.

Lemma Graph_eq (g1 g2 : Graph) :
  traits g1 = traits g2 -> vertices g1 = vertices g2 -> edges g1 = edges g2 -> g1 = g2.
Proof. destruct g1, g2; simpl; intros -> -> ->; reflexivity. Qed.

Lemma range_keys_elem_of {V : Type} (m : gmap string V) (ord : list string) (x : string) :
  range_keys m ord -> x ∈ ord <-> x ∈ dom m.
Proof. intros Hord. unfold range_keys in Hord. rewrite Hord. apply elem_of_elements. Qed.

Lemma AddVertex_spec g value :
  traits (AddVertex g value).1 = traits g
  /\ edges (AddVertex g value).1 = edges g
  /\ forall x, x ∈ vertices (AddVertex g value).1 <-> x = value \/ x ∈ vertices g.
Proof.
  unfold AddVertex. case_decide; simpl; repeat split; try done; set_solver.
Qed.

(** The first loop adds the names as vertices and touches nothing else. *)
Lemma addVertices_spec (ord1 : list string) :
  forall g,
    traits (cmd.addVertices g ord1) = traits g
    /\ edges (cmd.addVertices g ord1) = edges g
    /\ forall x, x ∈ vertices (cmd.addVertices g ord1) <-> x ∈ vertices g \/ x ∈ ord1.
Proof.
  induction ord1 as [|name ord1 IH]; intros g; simpl.
  - repeat split; [by left|]. intros [H|H]; [done|]. inversion H.
  - destruct (IH (AddVertex g name).1) as (Ht & He & Hv).
    destruct (AddVertex_spec g name) as (Ht1 & He1 & Hv1).
    unfold cmd.addVertices in *. simpl. rewrite Ht, He, Ht1, He1.
    repeat split; try done.
    + intros Hx. apply Hv in Hx. rewrite Hv1 in Hx. set_solver.
    + intros Hx. apply Hv. rewrite Hv1. set_solver.
Qed.

(** [AddEdge] on a graph that does not prevent cycles: the edge is stored
    when both ends are vertices. *)
Lemma AddEdge_spec g source target :
  PreventCycles (traits g) = false ->
  traits (AddEdge g source target).1 = traits g
  /\ vertices (AddEdge g source target).1 = vertices g
  /\ forall e, e ∈ edges (AddEdge g source target).1 <->
               e ∈ edges g
               \/ (e = (source, target) /\ source ∈ vertices g /\ target ∈ vertices g).
Proof.
  intros Hpc. unfold AddEdge. rewrite Hpc. simpl.
  repeat case_decide; simpl; repeat split; try done; set_solver.
Qed.

Lemma addEdgesOf_spec name (deps : list string) :
  forall g,
    PreventCycles (traits g) = false ->
    traits (cmd.addEdgesOf g name deps) = traits g
    /\ vertices (cmd.addEdgesOf g name deps) = vertices g
    /\ forall e, e ∈ edges (cmd.addEdgesOf g name deps) <->
                 e ∈ edges g
                 \/ exists dep, e = (name, dep) /\ dep ∈ deps
                                /\ name ∈ vertices g /\ dep ∈ vertices g.
Proof.
  induction deps as [|dep deps IH]; intros g Hpc; simpl.
  - repeat split; [by left|]. intros [H|(d & _ & H & _)]; [done|]. inversion H.
  - destruct (AddEdge_spec g name dep Hpc) as (Ht & Hv & He).
    destruct (IH (AddEdge g name dep).1) as (Ht' & Hv' & He'); [by rewrite Ht|].
    unfold cmd.addEdgesOf in *. simpl. rewrite Ht', Hv', Ht, Hv.
    repeat split; try done.
    + intros H. apply He' in H. rewrite He, Hv in H.
      destruct H as [[H|(-> & Hs & Hd)]|(d & -> & Hin & Hs & Hd)].
      * by left.
      * right. exists dep. repeat split; try done. by left.
      * right. exists d. repeat split; try done. by right.
    + intros H. apply He'. rewrite He, Hv.
      destruct H as [H|(d & -> & Hin & Hs & Hd)]; [by left; left|].
      apply elem_of_cons in Hin as [->|Hin]; [by left; right|].
      right. by exists d.
Qed.

Lemma addEdges_spec app (ord2 : list string) :
  forall g,
    PreventCycles (traits g) = false ->
    traits (cmd.addEdges app g ord2) = traits g
    /\ vertices (cmd.addEdges app g ord2) = vertices g
    /\ forall e, e ∈ edges (cmd.addEdges app g ord2) <->
                 e ∈ edges g
                 \/ exists name dep, e = (name, dep) /\ name ∈ ord2
                                     /\ dep ∈ cmd.dependsOn app name
                                     /\ name ∈ vertices g /\ dep ∈ vertices g.
Proof.
  induction ord2 as [|name ord2 IH]; intros g Hpc; simpl.
  - repeat split; [by left|]. intros [H|(n & d & _ & H & _)]; [done|]. inversion H.
  - destruct (addEdgesOf_spec name (cmd.dependsOn app name) g Hpc) as (Ht & Hv & He).
    destruct (IH (cmd.addEdgesOf g name (cmd.dependsOn app name))) as (Ht' & Hv' & He');
      [by rewrite Ht|].
    unfold cmd.addEdges in *. simpl. rewrite Ht', Hv', Ht, Hv.
    repeat split; try done.
    + intros H. apply He' in H. rewrite He, Hv in H.
      destruct H as [[H|(d & -> & Hin & Hs & Hd)]|(n & d & -> & Hin & Hdep & Hs & Hd)].
      * by left.
      * right. exists name, d. repeat split; try done. by left.
      * right. exists n, d. repeat split; try done. by right.
    + intros H. apply He'. rewrite He, Hv.
      destruct H as [H|(n & d & -> & Hin & Hdep & Hs & Hd)]; [by left; left|].
      apply elem_of_cons in Hin as [->|Hin].
      * left; right. by exists d.
      * right. by exists n, d.
Qed.

(** The graph [buildDag] returns, whatever the two iteration orders. *)
Lemma buildDag_spec app (ord1 ord2 : list string) :
  traits (cmd.buildDag app ord1 ord2) = Acyclic (Directed noTraits)
  /\ (forall x, x ∈ vertices (cmd.buildDag app ord1 ord2) <-> x ∈ ord1)
  /\ forall name dep,
       (name, dep) ∈ edges (cmd.buildDag app ord1 ord2) <->
       name ∈ ord2 /\ dep ∈ cmd.dependsOn app name /\ name ∈ ord1 /\ dep ∈ ord1.
Proof.
  unfold cmd.buildDag.
  destruct (addVertices_spec ord1 (New [Directed; Acyclic])) as (Ht & He & Hv).
  destruct (addEdges_spec app ord2 (cmd.addVertices (New [Directed; Acyclic]) ord1))
    as (Ht' & Hv' & He'); [by rewrite Ht|].
  rewrite Ht', Ht, Hv'. split; [done|]. split.
  - intros x. rewrite Hv. simpl. set_solver.
  - intros name dep. rewrite He', He. split.
    + intros [H|(n & d & [= <- <-] & Hin & Hdep & Hs & Hd)]; [by simpl in H|].
      apply Hv in Hs as [Hs|Hs]; [by simpl in Hs|].
      apply Hv in Hd as [Hd|Hd]; [by simpl in Hd|]. done.
    + intros (Hin & Hdep & Hs & Hd). right. exists name, dep.
      repeat split; try done; apply Hv; by right.
Qed.

Lemma dependsOn_elem_of app name dep :
  dep ∈ cmd.dependsOn app name <->
  exists svc, Services app !! name = Some svc /\ dep ∈ DependsOn svc.
Proof.
  unfold cmd.dependsOn. destruct (Services app !! name) as [svc|]; split.
  - intros H. by exists svc.
  - intros (svc' & [= <-] & H). done.
  - intros H. inversion H.
  - intros (svc' & [=] & _).
Qed.

End Graph.

(** ** What the graph holds *)

Lemma buildDag_edges app ord1 ord2 name dep :
  range_keys (Services app) ord1 ->
  range_keys (Services app) ord2 ->
  (name, dep) ∈ graph.edges (cmd.buildDag app ord1 ord2) <->
  exists svc, Services app !! name = Some svc /\ dep ∈ DependsOn svc
              /\ dep ∈ dom (Services app).
Proof.
  intros H1 H2. destruct (buildDag_spec app ord1 ord2) as (_ & _ & He).
  rewrite He, dependsOn_elem_of, !(range_keys_elem_of _ ord1) by done.
  rewrite (range_keys_elem_of _ ord2) by done. split.
  - intros (_ & (svc & Hsvc & Hdep) & _ & Hd). by exists svc.
  - intros (svc & Hsvc & Hdep & Hd).
    assert (name ∈ dom (Services app)) by (apply elem_of_dom; by exists svc).
    repeat split; try done. by exists svc.
Qed.

Lemma buildDag_vertices app ord1 ord2 :
  range_keys (Services app) ord1 ->
  graph.vertices (cmd.buildDag app ord1 ord2) = dom (Services app).
Proof.
  intros H1. destruct (buildDag_spec app ord1 ord2) as (_ & Hv & _).
  apply set_eq. intros x. rewrite Hv. by apply range_keys_elem_of.
Qed.

(** C8 as stated fails: service x declares the dependency ghost, which is
    no service; the graph built has no edge from x to ghost. *)
Lemma undeclared_dependency_has_no_edge :
  range_keys (Services sample.ghostly) ["x"]
  /\ ~ declaredGraph sample.ghostly (cmd.buildDag sample.ghostly ["x"] ["x"]).
Proof.
  assert (Hr : range_keys (Services sample.ghostly) ["x"]) by (vm_compute; reflexivity).
  split; [done|]. intros [_ He].
  assert (Hin : ("x", "ghost") ∈ graph.edges (cmd.buildDag sample.ghostly ["x"] ["x"])).
  { apply He. exists (sample.service ["ghost"]). split; [reflexivity|]. by left. }
  apply buildDag_spec in Hin as (_ & _ & _ & Hg).
  apply list_elem_of_singleton in Hg. discriminate.
Qed.

(** C8, amended. The graph built has exactly one vertex per declared
    service and, for every service, one edge from that service to each of
    its declared dependencies that is itself a declared service, and no
    other vertices or edges; when every declared dependency is a declared
    service, these are all the declared dependencies. *)
Theorem graph_has_services_and_resolvable_dependencies :
  forall (app : Compose) (ord1 ord2 : list string),
    range_keys (Services app) ord1 ->
    range_keys (Services app) ord2 ->
    graph.vertices (cmd.buildDag app ord1 ord2) = dom (Services app)
    /\ (forall name dep,
          (name, dep) ∈ graph.edges (cmd.buildDag app ord1 ord2) <->
          exists svc, Services app !! name = Some svc /\ dep ∈ DependsOn svc
                      /\ dep ∈ dom (Services app))
    /\ (closedServices app -> declaredGraph app (cmd.buildDag app ord1 ord2)).
Proof.
  intros app ord1 ord2 H1 H2. split; [by apply buildDag_vertices|]. split.
  - intros name dep. by apply buildDag_edges.
  - intros Hclosed. split; [by apply buildDag_vertices|].
    intros name dep. rewrite buildDag_edges by done. split.
    + intros (svc & Hsvc & Hdep & _). by exists svc.
    + intros (svc & Hsvc & Hdep). exists svc. repeat split; try done.
      by eapply Hclosed.
Qed.

Lemma range_keys_chain :
  range_keys (Services sample.chain) ["web"; "api"; "db"].
Proof. vm_compute. reflexivity. Qed.

Lemma range_keys_chain' :
  range_keys (Services sample.chain) ["db"; "web"; "api"].
Proof.
  unfold range_keys. rewrite <- range_keys_chain.
  apply (Permutation_cons_append ["web"; "api"] "db").
Qed.

Lemma graph_has_services_and_resolvable_dependencies_witness :
  graph.vertices (cmd.buildDag sample.chain ["web"; "api"; "db"] ["db"; "web"; "api"]) =
    dom (Services sample.chain)
  /\ (forall name dep,
        (name, dep) ∈ graph.edges
                        (cmd.buildDag sample.chain ["web"; "api"; "db"] ["db"; "web"; "api"]) <->
        exists svc, Services sample.chain !! name = Some svc /\ dep ∈ DependsOn svc
                    /\ dep ∈ dom (Services sample.chain))
  /\ (closedServices sample.chain ->
      declaredGraph sample.chain
        (cmd.buildDag sample.chain ["web"; "api"; "db"] ["db"; "web"; "api"])).
Proof.
  apply graph_has_services_and_resolvable_dependencies.
  - exact range_keys_chain.
  - exact range_keys_chain'.
Defined.

(** ** Determinism *)

(** C9. Any two builds of the graph from the same service set give the same
    graph, whatever order each of the two loops of each build iterates the
    service map in. *)
Theorem graph_construction_is_deterministic :
  forall (app : Compose) (ord1 ord2 ord1' ord2' : list string),
    range_keys (Services app) ord1 ->
    range_keys (Services app) ord2 ->
    range_keys (Services app) ord1' ->
    range_keys (Services app) ord2' ->
    cmd.buildDag app ord1 ord2 = cmd.buildDag app ord1' ord2'.
Proof.
  intros app ord1 ord2 ord1' ord2' H1 H2 H1' H2'. apply Graph_eq.
  - destruct (buildDag_spec app ord1 ord2) as (-> & _).
    by destruct (buildDag_spec app ord1' ord2') as (-> & _).
  - by rewrite !buildDag_vertices.
  - apply set_eq. intros [name dep]. by rewrite !buildDag_edges.
Qed.

Lemma graph_construction_is_deterministic_witness :
  cmd.buildDag sample.chain ["web"; "api"; "db"] ["db"; "web"; "api"] =
  cmd.buildDag sample.chain ["db"; "web"; "api"] ["web"; "api"; "db"].
Proof.
  apply graph_construction_is_deterministic;
    first [exact range_keys_chain | exact range_keys_chain'].
Defined.

(** ** Errors of the graph construction *)

(** The graph part of [PersistentPreRunE] ends in [return nil]. *)
Lemma PersistentPreRunE_dag_returns_nil app ord1 ord2 :
  (cmd.PersistentPreRunE_dag app ord1 ord2).2 = None
  /\ Dag (cmd.PersistentPreRunE_dag app ord1 ord2).1 = Some (cmd.buildDag app ord1 ord2).
Proof. by split. Qed.

(** C3 as stated fails: service x depends on ghost, which is no service;
    the build returns nil and stores a graph. *)
Lemma unknown_dependency_is_not_reported :
  range_keys (Services sample.ghostly) ["x"]
  /\ Services sample.ghostly !! "x" = Some (sample.service ["ghost"])
  /\ ("ghost" ∉ dom (Services sample.ghostly))
  /\ (cmd.PersistentPreRunE_dag sample.ghostly ["x"] ["x"]).2 = None
  /\ Dag (cmd.PersistentPreRunE_dag sample.ghostly ["x"] ["x"]).1 =
       Some {| graph.traits := graph.Acyclic (graph.Directed graph.noTraits);
               graph.vertices := {["x"]};
               graph.edges := ∅ |}.
Proof.
  split; [vm_compute; reflexivity|]. split; [reflexivity|]. split.
  - intros H. apply elem_of_dom in H as [svc H]. vm_compute in H. discriminate.
  - split; vm_compute; reflexivity.
Qed.

(** C3, amended. Where some service declares a dependency on a name that
    is no service, the build step still returns nil and stores the graph:
    [AddEdge] refuses that edge with a vertex-not-found error for the
    target, which names the missing service; the code drops the error, and
    the stored graph has no edge to the missing name. No call of the build
    step leaves the process. *)
Theorem unknown_dependency_is_dropped :
  forall (app : Compose) (ord1 ord2 : list string)
         (name missing : string) (svc : Service),
    range_keys (Services app) ord1 ->
    range_keys (Services app) ord2 ->
    Services app !! name = Some svc ->
    missing ∈ DependsOn svc ->
    missing ∉ dom (Services app) ->
    (cmd.PersistentPreRunE_dag app ord1 ord2).2 = None
    /\ exists g,
         Dag (cmd.PersistentPreRunE_dag app ord1 ord2).1 = Some g
         /\ graph.vertices g = dom (Services app)
         /\ ((name, missing) ∉ graph.edges g)
         /\ graph.AddEdge g name missing = (g, Some (graph.ErrTargetVertexNotFound missing)).
Proof.
  intros app ord1 ord2 name missing svc H1 H2 Hsvc Hdep Hmissing.
  split; [done|]. exists (cmd.buildDag app ord1 ord2).
  assert (Hv := buildDag_vertices app ord1 ord2 H1).
  split; [done|]. split; [done|]. split.
  - rewrite buildDag_edges by done. intros (svc' & _ & _ & H). done.
  - unfold graph.AddEdge. rewrite Hv.
    rewrite decide_True by (apply elem_of_dom; by exists svc).
    by rewrite decide_False.
Qed.

Lemma unknown_dependency_is_dropped_witness :
  (cmd.PersistentPreRunE_dag sample.ghostly ["x"] ["x"]).2 = None
  /\ exists g,
       Dag (cmd.PersistentPreRunE_dag sample.ghostly ["x"] ["x"]).1 = Some g
       /\ graph.vertices g = dom (Services sample.ghostly)
       /\ (("x", "ghost") ∉ graph.edges g)
       /\ graph.AddEdge g "x" "ghost" = (g, Some (graph.ErrTargetVertexNotFound "ghost")).
Proof.
  apply (unknown_dependency_is_dropped sample.ghostly ["x"] ["x"] "x" "ghost"
           (sample.service ["ghost"])).
  - vm_compute. reflexivity.
  - vm_compute. reflexivity.
  - reflexivity.
  - by left.
  - intros H. apply elem_of_dom in H as [svc H]. vm_compute in H. discriminate.
Defined.

(** C2 as stated fails: services A and B depend on each other; the build
    returns nil and stores a graph in [app.Dag]. *)
Lemma dependency_cycle_is_not_reported :
  onCycle sample.cyclic "A"
  /\ range_keys (Services sample.cyclic) ["A"; "B"]
  /\ (cmd.PersistentPreRunE_dag sample.cyclic ["A"; "B"] ["A"; "B"]).2 = None
  /\ Dag (cmd.PersistentPreRunE_dag sample.cyclic ["A"; "B"] ["A"; "B"]).1 <> None.
Proof.
  split; [|split; [vm_compute; reflexivity|split; [reflexivity|discriminate]]].
  apply tc_l with "B"; [|apply tc_once]; unfold declares; by left.
Qed.

(** C2, amended. For every service set with a dependency cycle, the build
    step returns nil and stores a graph in [app.Dag]: the graph has one
    vertex per declared service and each of its edges is a declared
    dependency. No call of the build step leaves the process. *)
Theorem dependency_cycle_does_not_fail_the_build :
  forall (app : Compose) (ord1 ord2 : list string) (name : string),
    range_keys (Services app) ord1 ->
    range_keys (Services app) ord2 ->
    onCycle app name ->
    (cmd.PersistentPreRunE_dag app ord1 ord2).2 = None
    /\ exists g,
         Dag (cmd.PersistentPreRunE_dag app ord1 ord2).1 = Some g
         /\ graph.vertices g = dom (Services app)
         /\ forall a b, (a, b) ∈ graph.edges g -> declares app a b.
Proof.
  intros app ord1 ord2 name H1 H2 _. split; [done|].
  exists (cmd.buildDag app ord1 ord2). split; [done|].
  split; [by apply buildDag_vertices|].
  intros a b Hin. apply buildDag_spec in Hin as (_ & Hdep & _). done.
Qed.

Lemma dependency_cycle_does_not_fail_the_build_witness :
  (cmd.PersistentPreRunE_dag sample.cyclic ["A"; "B"] ["A"; "B"]).2 = None
  /\ exists g,
       Dag (cmd.PersistentPreRunE_dag sample.cyclic ["A"; "B"] ["A"; "B"]).1 = Some g
       /\ graph.vertices g = dom (Services sample.cyclic)
       /\ forall a b, (a, b) ∈ graph.edges g -> declares sample.cyclic a b.
Proof.
  apply (dependency_cycle_does_not_fail_the_build sample.cyclic ["A"; "B"] ["A"; "B"] "A").
  - vm_compute. reflexivity.
  - vm_compute. reflexivity.
  - apply tc_l with "B"; [|apply tc_once]; unfold declares; by left.
Defined.

(** The graph stored for the two services that depend on each other is
    declared acyclic and holds both edges of the cycle. *)
Example dependency_cycle_is_stored :
  cmd.PersistentPreRunE_dag sample.cyclic ["A"; "B"] ["A"; "B"] =
    ({| ComposeProject := ComposeProject sample.cyclic;
        Network := Network sample.cyclic;
        Services := Services sample.cyclic;
        Remote := Remote sample.cyclic;
        Dag := Some {| graph.traits := graph.Acyclic (graph.Directed graph.noTraits);
                       graph.vertices := {["A"; "B"]};
                       graph.edges := {[("A", "B"); ("B", "A")]} |} |}, None).
Proof. vm_compute. reflexivity. Qed.

(** Only a graph built with [PreventCycles()] refuses the edge that closes
    the cycle. *)
Example PreventCycles_refuses_cycle :
  let g := cmd.addVertices (graph.New [graph.Directed; graph.PreventCycles_option]) ["A"; "B"] in
  let g := (graph.AddEdge g "A" "B").1 in
  (graph.AddEdge g "B" "A").2 = Some graph.ErrEdgeCreatesCycle
  /\ (graph.AddEdge g "A" "A").2 = Some graph.ErrEdgeCreatesCycle.
Proof. split; vm_compute; reflexivity. Qed.

(** The sample batches are iteration orders of their models. *)
Lemma sample_range (nets : list (string * types.NetworkConfig)) :
  NoDup nets.*1 ->
  range_of (types.Networks (ComposeProject (sample.compose nets []))) nets.
Proof. intros Hnd. unfold range_of. simpl. symmetry. by apply map_to_list_to_map. Qed.

Lemma two_nets_range :
  range_of (types.Networks (ComposeProject (sample.compose sample.two_nets [])))
    sample.two_nets.
Proof. apply sample_range. apply (bool_decide_unpack _). vm_compute. exact I. Qed.

Lemma three_nets_range :
  range_of (types.Networks (ComposeProject (sample.compose sample.three_nets [])))
    sample.three_nets.
Proof. apply sample_range. apply (bool_decide_unpack _). vm_compute. exact I. Qed.

(** * Further properties of the network batches *)

Lemma nonExternal_true key network :
  types.External network = false -> nonExternal (key, network).
Proof. intros H. unfold nonExternal. simpl. by rewrite H. Qed.

Lemma nonExternal_false key network :
  types.External network = true -> ~ nonExternal (key, network).
Proof. intros H. unfold nonExternal. simpl. rewrite H. intros []. Qed.

(** Whatever the outcome of the create loop, its create calls are for a
    prefix [done] of the non-external networks, in order; when the loop
    returns nil the prefix is all of them and every call succeeded. *)
Lemma CreateNetworks_loop_attempts {W : Type} (env : Env W) (c : Compose) ord :
  forall s,
    exists evs done rest,
      trace (CreateNetworks_loop env c ord s).2 = trace s ++ evs
      /\ filter nonExternal ord = done ++ rest
      /\ Forall2 (createAttempt env c) done (filter isCreate evs)
      /\ ((CreateNetworks_loop env c ord s).1 = Val None ->
          rest = [] /\ Forall succeeded evs).
Proof.
  induction ord as [|[key network] ord IH]; intros s.
  - exists [], [], []. simpl. rewrite app_nil_r. repeat split; constructor.
  - destruct (types.External network) eqn:Hext.
    + rewrite CreateNetworks_loop_external by done.
      destruct (IH s) as (evs & done & rest & Htr & Hf & Hall & Hok).
      exists evs, done, rest. repeat split; try done; try (by apply Hok).
      rewrite filter_cons_False; [done|]. by apply nonExternal_false.
    + rewrite CreateNetworks_loop_cons by done.
      rewrite override_precedence. simpl. rewrite networkRequest_expected.
      rewrite filter_cons_True by (by apply nonExternal_true).
      destruct (ParseServers env (types.Name network)) as [resources [e|]] eqn:Hres.
      { eexists [_], [], _. simpl. repeat split; try done; constructor. }
      destruct resources as [|resource resources].
      { eexists [_], [], _. simpl. repeat split; try done; constructor. }
      destruct (CreateNetwork env (server resource) _ (world s)) as [[e|] w] eqn:Hcall.
      { eexists [_; _], [_], _. simpl. split; [by rewrite <- app_assoc|].
        split; [done|]. split; [|done].
        rewrite filter_cons_False by (simpl; auto).
        rewrite filter_cons_True by done.
        constructor; [|constructor]. exists resource, resources, (Some e).
        simpl. by rewrite Hres. }
      match goal with
      | |- context [CreateNetworks_loop env c ord ?s2] =>
          destruct (IH s2) as (evs & done & rest & Htr & Hf & Hall & Hok)
      end.
      simpl in Htr.
      eexists (_ :: _ :: evs), (_ :: done), rest. split; [|split; [|split]].
      * rewrite Htr, <- !app_assoc. reflexivity.
      * by rewrite Hf.
      * rewrite filter_cons_False by (simpl; auto).
        rewrite filter_cons_True by done.
        constructor; [|done]. exists resource, resources, None. simpl. by rewrite Hres.
      * intros Hnil. destruct (Hok Hnil) as [-> Hsucc]. split; [done|].
        repeat constructor; done.
Qed.

(** After a create loop that returned nil, the create calls are the
    successful calls for all the non-external networks. *)
Lemma CreateNetworks_loop_created {W : Type} (env : Env W) (c : Compose) ord s s' :
  CreateNetworks_loop env c ord s = (Val None, s') ->
  exists evs,
    trace s' = trace s ++ evs
    /\ Forall2 (createdFor env c) (filter nonExternal ord) (filter isCreate evs).
Proof.
  intros Hrun.
  destruct (CreateNetworks_loop_attempts env c ord s)
    as (evs & done & rest & Htr & Hf & Hall & Hok).
  rewrite Hrun in Htr, Hok. simpl in Htr, Hok.
  destruct Hok as [-> Hsucc]; [done|]. rewrite app_nil_r in Hf.
  exists evs. split; [done|]. rewrite Hf.
  assert (Hs : Forall succeeded (filter isCreate evs)).
  { apply Forall_forall. intros ev Hin. apply list_elem_of_filter in Hin as [_ Hin].
    by apply (proj1 (Forall_forall _ _) Hsucc). }
  clear Htr Hsucc Hf Hrun. induction Hall as [|kn ev done evs' Hat Hall IH]; [constructor|].
  inversion Hs as [|? ? Hev Hs']; subst. constructor; [|by apply IH].
  destruct Hat as (resource & resources & err & Hres & ->).
  unfold succeeded in Hev. simpl in Hev. subst err. by exists resource, resources.
Qed.

(** X1. Whatever its outcome, a create batch makes its create calls for a
    prefix of the non-external networks, in the order of the iteration:
    one call per network of the prefix, on the first endpoint the name
    resolves to and with the request of that network. No network gets two
    create calls and no call is made for a network out of turn; so the
    batch never makes more create calls than it has non-external
    networks. *)
Theorem create_calls_follow_the_iteration :
  forall (W : Type) (env : Env W) (c : Compose)
         (ord : list (string * types.NetworkConfig)) (s : State W),
    exists evs done rest,
      trace (CreateNetworks env c ord s).2 = trace s ++ evs
      /\ filter nonExternal ord = done ++ rest
      /\ Forall2 (createAttempt env c) done (filter isCreate evs)
      /\ length (filter isCreate evs) <= length (filter nonExternal ord).
Proof.
  intros W env c ord s. unfold CreateNetworks.
  destruct (CreateNetworks_loop_attempts env c ord s)
    as (evs & done & rest & Htr & Hf & Hall & _).
  exists evs, done, rest. repeat split; try done.
  rewrite Hf, length_app, <- (Forall2_length _ _ _ Hall). lia.
Qed.

(** X2. In a create batch a failed call is the last call: every call
    before it succeeded, nothing is called after it, and the error the
    batch returns is the error of that call, unchanged. A batch that
    returns nil or panics has seen no call fail. *)
Theorem create_batch_stops_at_first_failure :
  forall (W : Type) (env : Env W) (c : Compose)
         (ord : list (string * types.NetworkConfig)) (s : State W),
    exists evs,
      trace (CreateNetworks env c ord s).2 = trace s ++ evs
      /\ match (CreateNetworks env c ord s).1 with
         | Val (Some e) =>
             exists evs' ev,
               evs = evs' ++ [ev] /\ Forall succeeded evs' /\ failure ev = Some e
         | _ => Forall succeeded evs
         end.
Proof.
  intros W env c ord. unfold CreateNetworks.
  induction ord as [|[key network] ord IH]; intros s.
  - exists []. simpl. rewrite app_nil_r. split; [done|constructor].
  - destruct (types.External network) eqn:Hext.
    + rewrite CreateNetworks_loop_external by done. apply IH.
    + rewrite CreateNetworks_loop_cons by done.
      destruct (networkSettings c network) as [nettype uplink]; simpl.
      destruct (ParseServers env (types.Name network)) as [resources [e|]] eqn:Hres.
      { eexists [_]. split; [done|]. eexists [], _. repeat split; constructor. }
      destruct resources as [|resource resources].
      { eexists [_]. split; [done|]. repeat constructor. }
      destruct (CreateNetwork env (server resource) _ (world s)) as [[e|] w] eqn:Hcall.
      { eexists [_; _]. simpl. split; [by rewrite <- app_assoc|].
        eexists [_], _. repeat split; repeat constructor. }
      match goal with
      | |- context [CreateNetworks_loop env c ord ?s2] =>
          destruct (IH s2) as (evs & Htr & Hres'); simpl in Htr;
          destruct (CreateNetworks_loop env c ord s2) as [[[e|]|msg] s3]
      end; simpl in *.
      * destruct Hres' as (evs' & ev & -> & Hsucc & Hfail).
        eexists (_ :: _ :: evs' ++ [ev]). split; [by rewrite Htr, <- !app_assoc|].
        eexists (_ :: _ :: evs'), ev. repeat split; try done.
        repeat constructor; done.
      * eexists (_ :: _ :: evs). split; [by rewrite Htr, <- !app_assoc|].
        repeat constructor; done.
      * eexists (_ :: _ :: evs). split; [by rewrite Htr, <- !app_assoc|].
        repeat constructor; done.
Qed.

(** X3. A create batch never calls [DeleteNetwork] and a destroy batch
    never calls [CreateNetwork], whatever the outcome. *)
Theorem batches_make_only_their_own_calls :
  forall (W : Type) (env : Env W) (c : Compose)
         (ord : list (string * types.NetworkConfig)) (s : State W),
    (exists evs,
       trace (CreateNetworks env c ord s).2 = trace s ++ evs
       /\ filter isDelete evs = [])
    /\ (exists evs,
          trace (DestroyNetworks env c ord s).2 = trace s ++ evs
          /\ filter isCreate evs = []).
Proof.
  intros W env c ord s. split.
  - unfold CreateNetworks. revert s.
    induction ord as [|[key network] ord IH]; intros s.
    + exists []. simpl. by rewrite app_nil_r.
    + destruct (types.External network) eqn:Hext.
      * rewrite CreateNetworks_loop_external by done. apply IH.
      * rewrite CreateNetworks_loop_cons by done.
        destruct (networkSettings c network) as [nettype uplink]; simpl.
        destruct (ParseServers env (types.Name network)) as [resources [e|]] eqn:Hres.
        { by eexists [_]. }
        destruct resources as [|resource resources].
        { by eexists [_]. }
        destruct (CreateNetwork env (server resource) _ (world s)) as [[e|] w] eqn:Hcall.
        { eexists [_; _]. simpl. by rewrite <- app_assoc. }
        match goal with
        | |- context [CreateNetworks_loop env c ord ?s2] =>
            destruct (IH s2) as (evs & Htr & Hnone)
        end.
        simpl in Htr. eexists (_ :: _ :: evs).
        split; [by rewrite Htr, <- !app_assoc|].
        rewrite !filter_cons_False by (simpl; auto). done.
  - unfold DestroyNetworks. generalize (@None error) as funcError. revert s.
    induction ord as [|[key network] ord IH]; intros s funcError.
    + exists []. simpl. by rewrite app_nil_r.
    + destruct (types.External network) eqn:Hext.
      * rewrite DestroyNetworks_loop_external by done. apply IH.
      * rewrite DestroyNetworks_loop_cons by done.
        destruct (ParseServers env (types.Name network)) as [resources err] eqn:Hres.
        destruct resources as [|resource resources].
        { by eexists [_]. }
        destruct (DeleteNetwork env (server resource) _ (world s)) as [err' w] eqn:Hcall.
        cbv zeta.
        match goal with
        | |- context [DestroyNetworks_loop env c ord ?fe ?s2] =>
            destruct (IH s2 fe) as (evs & Htr & Hnone)
        end.
        simpl in *. eexists (_ :: _ :: evs).
        split; [by rewrite Htr, <- !app_assoc|].
        rewrite !filter_cons_False by (simpl; auto). done.
Qed.

(** X4. A batch in which every network is external, the empty batch
    included, is a no-op for both operations: they return nil, make no
    call, and leave the remote side as it was. *)
Theorem all_external_batch_is_a_no_op :
  forall (W : Type) (env : Env W) (c : Compose)
         (ord : list (string * types.NetworkConfig)) (s : State W),
    Forall (fun kn => types.External kn.2 = true) ord ->
    CreateNetworks env c ord s = (Val None, s)
    /\ DestroyNetworks env c ord s = (Val None, s).
Proof.
  intros W env c ord s Hall. unfold CreateNetworks, DestroyNetworks.
  induction Hall as [|[key network] ord Hext Hall [IHc IHd]]; [done|].
  simpl in Hext. split.
  - by rewrite CreateNetworks_loop_external.
  - by rewrite DestroyNetworks_loop_external.
Qed.

Lemma all_external_batch_is_a_no_op_witness :
  CreateNetworks (sample.envOk sample.resolveLocal) (sample.compose sample.two_nets [])
    [("ext", sample.net_ext)] sample.start = (Val None, sample.start)
  /\ DestroyNetworks (sample.envOk sample.resolveLocal) (sample.compose sample.two_nets [])
       [("ext", sample.net_ext)] sample.start = (Val None, sample.start).
Proof.
  apply all_external_batch_is_a_no_op. repeat constructor.
Defined.

(** X5. When a destroy batch returns, it returns nil exactly when every
    resolution and every delete call of the batch succeeded: no failure is
    lost and none is made up. *)
Theorem destroy_returns_nil_iff_all_calls_succeeded :
  forall (W : Type) (env : Env W) (c : Compose)
         (ord : list (string * types.NetworkConfig)) (s s' : State W)
         (e : option error),
    DestroyNetworks env c ord s = (Val e, s') ->
    exists evs,
      trace s' = trace s ++ evs
      /\ (e = None <-> Forall succeeded evs).
Proof.
  intros W env c ord s s' e. unfold DestroyNetworks.
  assert (Hgen : forall funcError s,
            DestroyNetworks_loop env c ord funcError s = (Val e, s') ->
            exists evs, trace s' = trace s ++ evs
                        /\ (e = None <-> funcError = None /\ Forall succeeded evs)).
  { clear s. induction ord as [|[key network] ord IH]; intros funcError s Hrun.
    - simpl in Hrun. inversion Hrun; subst. exists []. rewrite app_nil_r.
      split; [done|]. split; [by split|by intros []].
    - destruct (types.External network) eqn:Hext.
      + rewrite DestroyNetworks_loop_external in Hrun by done. by apply IH.
      + rewrite DestroyNetworks_loop_cons in Hrun by done.
        destruct (ParseServers env (types.Name network)) as [resources err] eqn:Hres.
        destruct resources as [|resource resources]; [done|].
        destruct (DeleteNetwork env (server resource) _ (world s)) as [err' w] eqn:Hcall.
        destruct (IH _ _ Hrun) as (evs & Htr & Hiff). simpl in Htr.
        eexists (_ :: _ :: evs). split; [by rewrite Htr, <- !app_assoc|].
        rewrite Hiff, !Forall_cons. unfold succeeded at 1 2. simpl.
        destruct err as [e0|], err' as [e1|], funcError as [f|]; simpl;
          split; intros H; try done; try (by destruct H as (? & ? & ? & ?));
          try (by destruct H as (? & ?)); by destruct H as (-> & _ & _ & ?). }
  intros Hrun. destruct (Hgen None s Hrun) as (evs & Htr & Hiff).
  exists evs. split; [done|]. rewrite Hiff. split; [by intros []|done].
Qed.

Lemma destroy_returns_nil_iff_all_calls_succeeded_witness :
  exists evs,
    trace (DestroyNetworks sample.envNetAFails (sample.compose sample.two_nets [])
             sample.two_nets sample.start).2 = trace sample.start ++ evs
    /\ (Some (ErrJoin [ErrMsg "delete failed"]) = None <-> Forall succeeded evs).
Proof.
  apply (destroy_returns_nil_iff_all_calls_succeeded nat sample.envNetAFails
           (sample.compose sample.two_nets []) sample.two_nets sample.start).
  vm_compute. reflexivity.
Defined.



(** * Further properties of the dependency graph *)

Lemma range_keys_NoDup {V : Type} (m : gmap string V) (ord : list string) :
  range_keys m ord -> NoDup ord.
Proof. intros H. unfold range_keys in H. rewrite H. apply NoDup_elements. Qed.

(** The graph when the second loop starts: the services as vertices, no
    edge, and no check for cycles. *)
Lemma addVertices_New app ord1 :
  range_keys (Services app) ord1 ->
  let g := cmd.addVertices (graph.New [graph.Directed; graph.Acyclic]) ord1 in
  graph.PreventCycles (graph.traits g) = false
  /\ graph.edges g = ∅
  /\ forall x, x ∈ graph.vertices g <-> x ∈ dom (Services app).
Proof.
  intros H1.
  destruct (addVertices_spec ord1 (graph.New [graph.Directed; graph.Acyclic]))
    as (Ht & He & Hv).
  simpl. rewrite Ht, He. repeat split; try done.
  - intros Hx. apply Hv in Hx as [Hx|Hx]; [by simpl in Hx|].
    by apply (range_keys_elem_of _ ord1).
  - intros Hx. apply Hv. right. by apply (range_keys_elem_of (Services app)).
Qed.

(** X7. Every edge of the graph built joins two of its vertices, whatever
    the two iteration orders: the vertices are all added before the first
    edge, and an edge with a missing end is not stored. *)
Theorem graph_edges_join_vertices :
  forall (app : Compose) (ord1 ord2 : list string) (a b : string),
    (a, b) ∈ graph.edges (cmd.buildDag app ord1 ord2) ->
    a ∈ graph.vertices (cmd.buildDag app ord1 ord2)
    /\ b ∈ graph.vertices (cmd.buildDag app ord1 ord2).
Proof.
  intros app ord1 ord2 a b Hin.
  destruct (buildDag_spec app ord1 ord2) as (_ & Hv & He).
  apply He in Hin as (_ & _ & Ha & Hb). split; by apply Hv.
Qed.

Lemma graph_edges_join_vertices_witness :
  "api" ∈ graph.vertices (cmd.buildDag sample.chain ["web"; "api"; "db"] ["web"; "api"; "db"])
  /\ "db" ∈ graph.vertices (cmd.buildDag sample.chain ["web"; "api"; "db"] ["web"; "api"; "db"]).
Proof.
  apply graph_edges_join_vertices.
  apply (bool_decide_unpack _). vm_compute. exact I.
Defined.

(** X8. The graph depends on the dependencies of a service only as a set:
    two models with the same service names whose services have the same
    dependencies up to order and repetition give the same graph. A
    dependency listed twice is stored once. *)
Theorem graph_ignores_order_and_repetition_of_dependencies :
  forall (app app' : Compose) (ord1 ord2 ord1' ord2' : list string),
    dom (Services app) = dom (Services app') ->
    (forall name dep, dep ∈ cmd.dependsOn app name <-> dep ∈ cmd.dependsOn app' name) ->
    range_keys (Services app) ord1 ->
    range_keys (Services app) ord2 ->
    range_keys (Services app') ord1' ->
    range_keys (Services app') ord2' ->
    cmd.buildDag app ord1 ord2 = cmd.buildDag app' ord1' ord2'.
Proof.
  intros app app' ord1 ord2 ord1' ord2' Hdom Hdeps H1 H2 H1' H2'.
  apply Graph_eq.
  - destruct (buildDag_spec app ord1 ord2) as (-> & _).
    by destruct (buildDag_spec app' ord1' ord2') as (-> & _).
  - by rewrite !buildDag_vertices.
  - apply set_eq. intros [name dep].
    destruct (buildDag_spec app ord1 ord2) as (_ & _ & He).
    destruct (buildDag_spec app' ord1' ord2') as (_ & _ & He').
    rewrite He, He'.
    rewrite !(range_keys_elem_of (Services app) ord1) by done.
    rewrite !(range_keys_elem_of (Services app) ord2) by done.
    rewrite !(range_keys_elem_of (Services app') ord1') by done.
    rewrite !(range_keys_elem_of (Services app') ord2') by done.
    by rewrite Hdom, Hdeps.
Qed.

Lemma range_keys_chainRepeated :
  range_keys (Services more.chainRepeated) ["web"; "api"; "db"].
Proof. vm_compute. reflexivity. Qed.

Lemma range_keys_chainOnce :
  range_keys (Services more.chainOnce) ["web"; "api"; "db"].
Proof. vm_compute. reflexivity. Qed.

Lemma graph_ignores_order_and_repetition_of_dependencies_witness :
  cmd.buildDag more.chainRepeated ["web"; "api"; "db"] ["web"; "api"; "db"] =
  cmd.buildDag more.chainOnce ["web"; "api"; "db"] ["web"; "api"; "db"].
Proof.
  apply graph_ignores_order_and_repetition_of_dependencies;
    try exact range_keys_chainRepeated; try exact range_keys_chainOnce.
  - vm_compute. reflexivity.
  - intros name dep. unfold cmd.dependsOn. simpl.
    destruct (decide (name = "db")) as [->|Hdb]; [by simplify_map_eq|].
    destruct (decide (name = "api")) as [->|Hapi]; [simplify_map_eq; set_solver|].
    destruct (decide (name = "web")) as [->|Hweb]; [simplify_map_eq; set_solver|].
    by simplify_map_eq.
Defined.

(** X9. No [AddVertex] call of the first loop fails: the loop ranges over
    the keys of the service map, so the name of each call is new to the
    graph built from the names before it. *)
Theorem no_AddVertex_call_fails :
  forall (app : Compose) (ord1 pre post : list string) (name : string),
    range_keys (Services app) ord1 ->
    ord1 = pre ++ name :: post ->
    let g0 := graph.New [graph.Directed; graph.Acyclic] in
    let g := cmd.addVertices g0 pre in
    (graph.AddVertex g name).2 = None
    /\ cmd.addVertices g0 ord1 = cmd.addVertices (graph.AddVertex g name).1 post.
Proof.
  intros app ord1 pre post name H1 -> g0 g. split.
  - apply range_keys_NoDup in H1. apply NoDup_app in H1 as (_ & Hnot & _).
    destruct (addVertices_spec pre g0) as (_ & _ & Hv).
    unfold graph.AddVertex. rewrite decide_False; [done|].
    fold g in Hv. intros Hin. apply Hv in Hin as [Hin|Hin]; [by simpl in Hin|].
    apply (Hnot name Hin). by left.
  - unfold cmd.addVertices. by rewrite foldl_app.
Qed.

Lemma no_AddVertex_call_fails_witness :
  (graph.AddVertex
     (cmd.addVertices (graph.New [graph.Directed; graph.Acyclic]) ["web"]) "api").2 = None
  /\ cmd.addVertices (graph.New [graph.Directed; graph.Acyclic]) ["web"; "api"; "db"] =
     cmd.addVertices
       (graph.AddVertex
          (cmd.addVertices (graph.New [graph.Directed; graph.Acyclic]) ["web"]) "api").1
       ["db"].
Proof.
  apply (no_AddVertex_call_fails sample.chain ["web"; "api"; "db"] ["web"] ["db"] "api").
  - exact range_keys_chain.
  - reflexivity.
Defined.

(** X10. What each [AddEdge] call of the second loop returns, and the code
    drops. The call for dependency [dep] of service [name], made on the
    graph built so far, returns a target-vertex-not-found error when [dep]
    is no declared service, an edge-already-exists error when [dep] is a
    declared service listed earlier among the dependencies of [name], and
    nil otherwise. It never reports a missing source vertex or a cycle. *)
Theorem AddEdge_call_result :
  forall (app : Compose) (ord1 ord2 pre post dpre dpost : list string)
         (name dep : string),
    range_keys (Services app) ord1 ->
    range_keys (Services app) ord2 ->
    ord2 = pre ++ name :: post ->
    cmd.dependsOn app name = dpre ++ dep :: dpost ->
    let g0 := cmd.addVertices (graph.New [graph.Directed; graph.Acyclic]) ord1 in
    let g := cmd.addEdgesOf (cmd.addEdges app g0 pre) name dpre in
    (graph.AddEdge g name dep).2 =
      if decide (dep ∈ dom (Services app))
      then if decide (dep ∈ dpre) then Some graph.ErrEdgeAlreadyExists else None
      else Some (graph.ErrTargetVertexNotFound dep).
Proof.
  intros app ord1 ord2 pre post dpre dpost name dep H1 H2 Hord Hdeps g0 g.
  destruct (addVertices_New app ord1 H1) as (Hpc0 & He0 & Hv0). fold g0 in Hpc0, He0, Hv0.
  destruct (addEdges_spec app pre g0 Hpc0) as (Ht1 & Hv1 & He1).
  assert (Hpc1 : graph.PreventCycles (graph.traits (cmd.addEdges app g0 pre)) = false)
    by (by rewrite Ht1).
  destruct (addEdgesOf_spec name dpre _ Hpc1) as (Ht2 & Hv2 & He2). fold g in Ht2, Hv2, He2.
  assert (Hv : forall x, x ∈ graph.vertices g <-> x ∈ dom (Services app)).
  { intros x. by rewrite Hv2, Hv1. }
  assert (Hname : name ∈ dom (Services app)).
  { apply (range_keys_elem_of _ ord2); [done|]. rewrite Hord. set_solver. }
  assert (Hfresh : name ∉ pre).
  { apply range_keys_NoDup in H2. rewrite Hord in H2.
    apply NoDup_app in H2 as (_ & Hnot & _). intros Hin. apply (Hnot name Hin). by left. }
  assert (Hedge : (name, dep) ∈ graph.edges g <-> dep ∈ dpre /\ dep ∈ dom (Services app)).
  { rewrite He2, He1, He0, Hv1. split.
    - intros [[Hin|(n & d & [= <- <-] & Hin & _)]|(d & [= <-] & Hin & _ & Hd)].
      + by apply not_elem_of_empty in Hin.
      + done.
      + split; [done|]. by apply Hv0.
    - intros [Hin Hd]. right. exists dep. repeat split; try done; by apply Hv0. }
  unfold graph.AddEdge.
  rewrite decide_True by (by apply Hv).
  destruct (decide (dep ∈ dom (Services app))) as [Hd|Hd].
  - rewrite decide_True by (by apply Hv).
    destruct (decide (dep ∈ dpre)) as [Hp|Hp].
    + rewrite decide_True; [done|]. by apply Hedge.
    + rewrite decide_False; [|rewrite Hedge; by intros [? _]].
      by rewrite Ht2, Ht1, Hpc0.
  - rewrite decide_False; [done|]. by rewrite Hv.
Qed.

Lemma AddEdge_call_result_witness :
  (graph.AddEdge
     (cmd.addEdgesOf
        (cmd.addEdges more.chainRepeated
           (cmd.addVertices (graph.New [graph.Directed; graph.Acyclic]) ["web"; "api"; "db"])
           [])
        "web" ["api"; "ghost"])
     "web" "api").2 =
  if decide ("api" ∈ dom (Services more.chainRepeated))
  then if decide ("api" ∈ ["api"; "ghost"]) then Some graph.ErrEdgeAlreadyExists else None
  else Some (graph.ErrTargetVertexNotFound "api").
Proof.
  apply (AddEdge_call_result more.chainRepeated ["web"; "api"; "db"] ["web"; "api"; "db"]
           [] ["api"; "db"] ["api"; "ghost"] [] "web" "api").
  - exact range_keys_chainRepeated.
  - exact range_keys_chainRepeated.
  - reflexivity.
  - reflexivity.
Defined.

(** * Properties of [cmd/root.go] *)

(** X11. From the settings to the remote call. After [PersistentPreRunE]
    has stored the viper settings in the model, a create batch that
    returns nil has made, for each non-external network, a create call
    whose type is the network's readable [x-incus-type] extension or else
    the value of the viper key [network.type], and whose config maps
    ["network"] to the readable [x-incus-uplink] extension or else the
    value of the viper key [network.uplink], when that type is ["ovn"].
    Building the graph in between changes none of this. *)
Theorem settings_reach_the_create_calls :
  forall (W : Type) (env : Env W) (GetString : string -> string) (app : Compose)
         (ord1 ord2 : list string)
         (ord : list (string * types.NetworkConfig)) (s s' : State W),
    CreateNetworks env (rootcmd.PersistentPreRunE_app GetString app ord1 ord2).1 ord s =
      (Val None, s') ->
    exists evs,
      trace s' = trace s ++ evs
      /\ Forall2
           (fun kn ev =>
              let nettype :=
                effective (types.Extensions kn.2 !! "x-incus-type")
                          (GetString "network.type") in
              let uplink :=
                effective (types.Extensions kn.2 !! "x-incus-uplink")
                          (GetString "network.uplink") in
              exists srv,
                ev = EvCreateNetwork srv
                       {| api.Name := types.Name kn.2;
                          api.Type_ := nettype;
                          api.Config := if decide (nettype = "ovn")
                                        then {["network" := uplink]} else ∅;
                          api.Description := "" |} None)
           (filter nonExternal ord) (filter isCreate evs).
Proof.
  intros W env GetString app ord1 ord2 ord s s' Hrun.
  apply CreateNetworks_loop_created in Hrun as (evs & Htr & Hall).
  exists evs. split; [done|].
  induction Hall as [|kn ev kns evs' Hev Hall IH]; constructor; [|done].
  destruct Hev as (resource & resources & _ & ->).
  exists (server resource). reflexivity.
Qed.

Lemma settings_reach_the_create_calls_witness :
  exists evs,
    trace (CreateNetworks (sample.envOk sample.resolveLocal)
             (rootcmd.PersistentPreRunE_app more.ovnSettings
                (sample.compose more.plainNets []) [] []).1
             more.plainNets sample.start).2 =
      trace sample.start ++ evs
    /\ Forall2
         (fun kn ev =>
            let nettype :=
              effective (types.Extensions kn.2 !! "x-incus-type")
                        (more.ovnSettings "network.type") in
            let uplink :=
              effective (types.Extensions kn.2 !! "x-incus-uplink")
                        (more.ovnSettings "network.uplink") in
            exists srv,
              ev = EvCreateNetwork srv
                     {| api.Name := types.Name kn.2;
                        api.Type_ := nettype;
                        api.Config := if decide (nettype = "ovn")
                                      then {["network" := uplink]} else ∅;
                        api.Description := "" |} None)
         (filter nonExternal more.plainNets) (filter isCreate evs).
Proof.
  apply (settings_reach_the_create_calls nat (sample.envOk sample.resolveLocal)
           more.ovnSettings (sample.compose more.plainNets []) [] []
           more.plainNets sample.start
           (CreateNetworks (sample.envOk sample.resolveLocal)
              (rootcmd.PersistentPreRunE_app more.ovnSettings
                 (sample.compose more.plainNets []) [] []).1
              more.plainNets sample.start).2).
  vm_compute. reflexivity.
Defined.

(** ** The log level *)

Lemma lowerByte_no_upper (s : string) :
  rootcmd.anyBytes rootcmd.isUpper s = false ->
  rootcmd.mapBytes rootcmd.lowerByte s = s.
Proof.
  induction s as [|c s IH]; simpl; [done|].
  intros H. apply orb_false_iff in H as [Hc Hs].
  rewrite IH by done. f_equal. unfold rootcmd.lowerByte. by rewrite Hc.
Qed.

(** On a string of ASCII bytes [strings.ToLower] lowers byte by byte. *)
Lemma strings_ToLower_ASCII (unicodeLower : string -> string) (s : string) :
  rootcmd.allBytes rootcmd.isASCII s = true ->
  rootcmd.strings_ToLower unicodeLower s = rootcmd.mapBytes rootcmd.lowerByte s.
Proof.
  intros H. unfold rootcmd.strings_ToLower. rewrite H.
  destruct (rootcmd.anyBytes rootcmd.isUpper s) eqn:Hu; simpl; [done|].
  by rewrite lowerByte_no_upper.
Qed.

Lemma isUpper_bounds (c : ascii) :
  rootcmd.isUpper c = true <-> 65 <= nat_of_ascii c <= 90.
Proof.
  unfold rootcmd.isUpper. rewrite andb_true_iff, !Nat.leb_le. done.
Qed.

Lemma lowerByte_nat (c : ascii) :
  nat_of_ascii (rootcmd.lowerByte c) =
  if rootcmd.isUpper c then nat_of_ascii c + 32 else nat_of_ascii c.
Proof.
  unfold rootcmd.lowerByte. destruct (rootcmd.isUpper c) eqn:Hu; [|done].
  apply isUpper_bounds in Hu. apply nat_ascii_embedding. lia.
Qed.

Lemma nat_of_ascii_inj (c d : ascii) : nat_of_ascii c = nat_of_ascii d -> c = d.
Proof.
  intros H. rewrite <- (ascii_nat_embedding c), <- (ascii_nat_embedding d). by rewrite H.
Qed.

Lemma foldsTo_lowerByte (c d : ascii) :
  foldsTo c d = true <-> rootcmd.lowerByte c = rootcmd.lowerByte d.
Proof.
  unfold foldsTo. rewrite !orb_true_iff, !andb_true_iff, !Nat.eqb_eq.
  rewrite bool_decide_eq_true. split.
  - intros [[->|[Hc Hd]]|[Hd Hc]]; [done| |]; apply nat_of_ascii_inj;
      rewrite !lowerByte_nat.
    + rewrite Hc. apply isUpper_bounds in Hc.
      destruct (rootcmd.isUpper d) eqn:Hud; [apply isUpper_bounds in Hud; lia|lia].
    + rewrite Hd. apply isUpper_bounds in Hd.
      destruct (rootcmd.isUpper c) eqn:Huc; [apply isUpper_bounds in Huc; lia|lia].
  - intros H. apply (f_equal nat_of_ascii) in H. rewrite !lowerByte_nat in H.
    destruct (rootcmd.isUpper c) eqn:Huc, (rootcmd.isUpper d) eqn:Hud.
    + left; left. apply nat_of_ascii_inj. lia.
    + left; right. split; [done|lia].
    + right. split; [done|lia].
    + left; left. by apply nat_of_ascii_inj.
Qed.

Lemma sameLetters_lowerByte (s t : string) :
  sameLetters s t = true <->
  rootcmd.mapBytes rootcmd.lowerByte s = rootcmd.mapBytes rootcmd.lowerByte t.
Proof.
  revert t. induction s as [|c s IH]; intros [|d t]; simpl; try done.
  rewrite andb_true_iff, foldsTo_lowerByte, IH. split.
  - by intros [-> ->].
  - by intros [= -> ->].
Qed.

(** X12. [LOG_LEVEL] is read without regard to the case of its letters.
    For a value made of ASCII bytes, [getLogLevelFromEnv] returns the debug
    level exactly when the value spells "debug" in some mix of upper and
    lower case, likewise the warn and error levels, and the info level in
    every other case: for "info" itself, for an unset variable, and for
    any other word. *)
Theorem log_level_ignores_letter_case :
  forall (Getenv : string -> string) (unicodeLower : string -> string),
    rootcmd.allBytes rootcmd.isASCII (Getenv "LOG_LEVEL") = true ->
    let level := rootcmd.getLogLevelFromEnv Getenv unicodeLower in
    (level = rootcmd.LevelDebug <-> sameLetters (Getenv "LOG_LEVEL") "debug" = true)
    /\ (level = rootcmd.LevelWarn <-> sameLetters (Getenv "LOG_LEVEL") "warn" = true)
    /\ (level = rootcmd.LevelError <-> sameLetters (Getenv "LOG_LEVEL") "error" = true)
    /\ (level = rootcmd.LevelInfo <->
        sameLetters (Getenv "LOG_LEVEL") "debug" = false
        /\ sameLetters (Getenv "LOG_LEVEL") "warn" = false
        /\ sameLetters (Getenv "LOG_LEVEL") "error" = false).
Proof.
  intros Getenv unicodeLower Hascii level. subst level.
  unfold rootcmd.getLogLevelFromEnv. rewrite strings_ToLower_ASCII by done.
  assert (Hd := sameLetters_lowerByte (Getenv "LOG_LEVEL") "debug").
  assert (Hw := sameLetters_lowerByte (Getenv "LOG_LEVEL") "warn").
  assert (He := sameLetters_lowerByte (Getenv "LOG_LEVEL") "error").
  change (rootcmd.mapBytes rootcmd.lowerByte "debug") with "debug" in Hd.
  change (rootcmd.mapBytes rootcmd.lowerByte "warn") with "warn" in Hw.
  change (rootcmd.mapBytes rootcmd.lowerByte "error") with "error" in He.
  rewrite <- !not_true_iff_false, Hd, Hw, He.
  generalize (rootcmd.mapBytes rootcmd.lowerByte (Getenv "LOG_LEVEL")) as m.
  intros m. clear Hd Hw He.
  unfold rootcmd.LevelDebug, rootcmd.LevelInfo, rootcmd.LevelWarn, rootcmd.LevelError.
  repeat case_decide; subst; repeat split; intros;
    try done; try lia; try congruence; intuition congruence.
Qed.

Lemma log_level_ignores_letter_case_witness :
  (rootcmd.getLogLevelFromEnv more.mixedCaseEnv id = rootcmd.LevelDebug <->
   sameLetters (more.mixedCaseEnv "LOG_LEVEL") "debug" = true)
  /\ (rootcmd.getLogLevelFromEnv more.mixedCaseEnv id = rootcmd.LevelWarn <->
      sameLetters (more.mixedCaseEnv "LOG_LEVEL") "warn" = true)
  /\ (rootcmd.getLogLevelFromEnv more.mixedCaseEnv id = rootcmd.LevelError <->
      sameLetters (more.mixedCaseEnv "LOG_LEVEL") "error" = true)
  /\ (rootcmd.getLogLevelFromEnv more.mixedCaseEnv id = rootcmd.LevelInfo <->
      sameLetters (more.mixedCaseEnv "LOG_LEVEL") "debug" = false
      /\ sameLetters (more.mixedCaseEnv "LOG_LEVEL") "warn" = false
      /\ sameLetters (more.mixedCaseEnv "LOG_LEVEL") "error" = false).
Proof.
  apply (log_level_ignores_letter_case more.mixedCaseEnv id).
  vm_compute. reflexivity.
Defined.

(** X13. The [--verbose] flag sets the debug level whatever [LOG_LEVEL]
    holds, and no value of [LOG_LEVEL] gives a more verbose level than
    the flag does. *)
Theorem verbose_flag_is_most_verbose :
  forall (Getenv : string -> string) (unicodeLower : string -> string),
    rootcmd.globalPreRunHook true Getenv unicodeLower = rootcmd.LevelDebug
    /\ (rootcmd.globalPreRunHook true Getenv unicodeLower
        <= rootcmd.globalPreRunHook false Getenv unicodeLower)%Z.
Proof.
  intros Getenv unicodeLower. split; [done|].
  unfold rootcmd.globalPreRunHook, rootcmd.getLogLevelFromEnv.
  unfold rootcmd.LevelDebug, rootcmd.LevelInfo, rootcmd.LevelWarn, rootcmd.LevelError.
  repeat case_decide; lia.
Qed.

(** ** The configuration and cache directories *)

Lemma configDir_error {FS : Type} (os : rootcmd.OS FS) (fs : FS) (e : error) :
  rootcmd.configDir os fs = inl e -> rootcmd.user_Current os = inl e.
Proof.
  unfold rootcmd.configDir.
  destruct (negb _); [done|]. destruct (_ && _); [done|].
  destruct (rootcmd.user_Current os) as [err|home]; [congruence|].
  by destruct (rootcmd.PathExists os home fs).
Qed.

Lemma cachePath_error {FS : Type} (os : rootcmd.OS FS) (fs : FS) (e : error) :
  rootcmd.cachePath os fs = inl e -> rootcmd.user_Current os = inl e.
Proof.
  unfold rootcmd.cachePath.
  destruct (negb _); [done|]. destruct (_ && _); [done|].
  destruct (rootcmd.user_Current os) as [err|home]; [congruence|].
  by destruct (rootcmd.PathExists os home fs).
Qed.


(** X15. With [forceLocal] set, or when no home directory is found
    (INCUS_CONF unset, HOME unset or missing, and the home directory of
    the current user missing), no configuration file is read: the
    configuration is [config.NewConfig("", true)] and [forceLocal] is set
    afterwards, whatever the file system holds. The only error this part
    can then return is that of the user lookup. *)
Theorem force_local_reads_no_config_file :
  forall (FS : Type) (os : rootcmd.OS FS) (forceLocal0 : bool) (fs : FS),
    forceLocal0 = true
    \/ (rootcmd.Getenv os "INCUS_CONF" = ""
        /\ usableHome os fs = false
        /\ exists home, rootcmd.user_Current os = inr home
                        /\ rootcmd.PathExists os home fs = false) ->
    match (rootcmd.PersistentPreRunE_conf os forceLocal0 fs).1 with
    | inl e => rootcmd.user_Current os = inl e
    | inr r =>
        rootcmd.origin (rootcmd.conf r) = rootcmd.NewConfig "" true
        /\ rootcmd.forceLocal r = true
    end.
Proof.
  intros FS os forceLocal0 fs Hforce.
  unfold rootcmd.PersistentPreRunE_conf.
  destruct (rootcmd.configDir os fs) as [e|dir] eqn:Hdir;
    [by apply configDir_error in Hdir|].
  destruct (rootcmd.cachePath os fs) as [e|cache] eqn:Hcache;
    [by apply cachePath_error in Hcache|].
  assert (Hfl : (if String.eqb dir "" then true else forceLocal0) = true).
  { destruct Hforce as [->|(Hconf & Hhome & home & Huser & Hmissing)];
      [by destruct (String.eqb dir "")|].
    unfold rootcmd.configDir in Hdir. unfold usableHome in Hhome.
    rewrite Hconf, Hhome, Huser, Hmissing in Hdir. simpl in Hdir.
    by injection Hdir as <-. }
  rewrite Hfl.
  destruct (negb (String.eqb cache "")); [|done].
  destruct (rootcmd.MkdirAll os cache fs) as [[err|] fs'];
    [destruct (negb (rootcmd.IsExist os err))|]; done.
Qed.

(** X16. A configuration file is read only when it is there and
    [forceLocal] stays off: if the configuration that the first part of
    [PersistentPreRunE] leaves behind was loaded from a file, then
    [forceLocal] was not given, that file is the [confPath] left behind,
    it exists in the file system left behind, and loading it did not
    fail. *)
Theorem config_file_is_read_only_when_present :
  forall (FS : Type) (os : rootcmd.OS FS) (forceLocal0 : bool) (fs fs' : FS)
         (r : rootcmd.Loaded) (p : string),
    rootcmd.PersistentPreRunE_conf os forceLocal0 fs = (inr r, fs') ->
    rootcmd.origin (rootcmd.conf r) = rootcmd.LoadConfig p ->
    forceLocal0 = false
    /\ rootcmd.forceLocal r = false
    /\ p = rootcmd.confPath r
    /\ rootcmd.PathExists os p fs' = true
    /\ rootcmd.LoadConfig_error os p fs' = None.
Proof.
  intros FS os forceLocal0 fs fs' r p. unfold rootcmd.PersistentPreRunE_conf.
  destruct (rootcmd.configDir os fs) as [e|dir]; [done|].
  destruct (rootcmd.cachePath os fs) as [e|cache]; [done|].
  set (confPath := rootcmd.ExpandEnv os (rootcmd.path_Join os [dir; "config.yml"])).
  assert (Hgen : forall cache' fs1,
    (if (if String.eqb dir "" then true else forceLocal0)
     then (inr {| rootcmd.conf := {| rootcmd.origin := rootcmd.NewConfig "" true;
                                     rootcmd.CacheDir := cache' |};
                  rootcmd.forceLocal := if String.eqb dir "" then true else forceLocal0;
                  rootcmd.confPath := confPath |}, fs1)
     else if rootcmd.PathExists os confPath fs1
          then match rootcmd.LoadConfig_error os confPath fs1 with
               | Some err => (inl err, fs1)
               | None =>
                   (inr {| rootcmd.conf := {| rootcmd.origin := rootcmd.LoadConfig confPath;
                                              rootcmd.CacheDir := cache' |};
                           rootcmd.forceLocal :=
                             if String.eqb dir "" then true else forceLocal0;
                           rootcmd.confPath := confPath |}, fs1)
               end
          else (inr {| rootcmd.conf :=
                         {| rootcmd.origin :=
                              rootcmd.NewConfig (rootcmd.filepath_Dir os confPath) true;
                            rootcmd.CacheDir := cache' |};
                       rootcmd.forceLocal := if String.eqb dir "" then true else forceLocal0;
                       rootcmd.confPath := confPath |}, fs1)) = (inr r, fs') ->
    rootcmd.origin (rootcmd.conf r) = rootcmd.LoadConfig p ->
    forceLocal0 = false /\ rootcmd.forceLocal r = false /\ p = rootcmd.confPath r
    /\ rootcmd.PathExists os p fs' = true /\ rootcmd.LoadConfig_error os p fs' = None).
  { intros cache' fs1.
    destruct (String.eqb dir "") eqn:Hdir.
    - intros [= <- <-]. simpl. done.
    - destruct forceLocal0; [intros [= <- <-]; simpl; done|].
      destruct (rootcmd.PathExists os confPath fs1) eqn:Hpe.
      + destruct (rootcmd.LoadConfig_error os confPath fs1) eqn:Hle; [done|].
        intros [= <- <-]. simpl. intros [= <-]. done.
      + intros [= <- <-]. simpl. done. }
  destruct (negb (String.eqb cache "")); [|apply Hgen].
  destruct (rootcmd.MkdirAll os cache fs) as [[err|] fs1];
    [destruct (negb (rootcmd.IsExist os err))|]; apply Hgen.
Qed.


Lemma force_local_reads_no_config_file_witness :
  match (rootcmd.PersistentPreRunE_conf systems.homeless false tt).1 with
  | inl e => rootcmd.user_Current systems.homeless = inl e
  | inr r =>
      rootcmd.origin (rootcmd.conf r) = rootcmd.NewConfig "" true
      /\ rootcmd.forceLocal r = true
  end.
Proof.
  apply (force_local_reads_no_config_file unit systems.homeless false tt).
  right. split; [reflexivity|]. split; [reflexivity|].
  exists "/home/u". split; reflexivity.
Defined.

Lemma config_file_is_read_only_when_present_witness :
  false = false
  /\ rootcmd.forceLocal
       {| rootcmd.conf := {| rootcmd.origin :=
                               rootcmd.LoadConfig "/home/u/.config/incus/config.yml";
                             rootcmd.CacheDir := "/home/u/.cache/incus" |};
          rootcmd.forceLocal := false;
          rootcmd.confPath := "/home/u/.config/incus/config.yml" |} = false
  /\ "/home/u/.config/incus/config.yml" =
     rootcmd.confPath
       {| rootcmd.conf := {| rootcmd.origin :=
                               rootcmd.LoadConfig "/home/u/.config/incus/config.yml";
                             rootcmd.CacheDir := "/home/u/.cache/incus" |};
          rootcmd.forceLocal := false;
          rootcmd.confPath := "/home/u/.config/incus/config.yml" |}
  /\ rootcmd.PathExists systems.configured "/home/u/.config/incus/config.yml" tt = true
  /\ rootcmd.LoadConfig_error systems.configured "/home/u/.config/incus/config.yml" tt = None.
Proof.
  apply (config_file_is_read_only_when_present unit systems.configured false tt tt).
  - vm_compute. reflexivity.
  - reflexivity.
Defined.

(** X17. The cache directory left in the configuration is usable or
    empty: when the first part of [PersistentPreRunE] succeeds, the
    [CacheDir] it leaves is empty, or it is the cache path that was
    figured out and [os.MkdirAll] on it returned nil or an error that
    [os.IsExist] accepts. *)
Theorem cache_dir_is_usable_or_empty :
  forall (FS : Type) (os : rootcmd.OS FS) (forceLocal0 : bool) (fs fs' : FS)
         (r : rootcmd.Loaded),
    rootcmd.PersistentPreRunE_conf os forceLocal0 fs = (inr r, fs') ->
    rootcmd.CacheDir (rootcmd.conf r) = ""
    \/ (rootcmd.cachePath os fs = inr (rootcmd.CacheDir (rootcmd.conf r))
        /\ exists err fs1,
             rootcmd.MkdirAll os (rootcmd.CacheDir (rootcmd.conf r)) fs = (err, fs1)
             /\ match err with
                | Some e => rootcmd.IsExist os e = true
                | None => True
                end).
Proof.
  intros FS os forceLocal0 fs fs' r. unfold rootcmd.PersistentPreRunE_conf.
  destruct (rootcmd.configDir os fs) as [e|dir]; [done|].
  destruct (rootcmd.cachePath os fs) as [e|cache]; [done|].
  set (confPath := rootcmd.ExpandEnv os (rootcmd.path_Join os [dir; "config.yml"])).
  set (fl := if String.eqb dir "" then true else forceLocal0).
  assert (Hgen : forall cache' fs1 (P : Prop),
    (cache' = "" \/ P) ->
    (if fl
     then (inr {| rootcmd.conf := {| rootcmd.origin := rootcmd.NewConfig "" true;
                                     rootcmd.CacheDir := cache' |};
                  rootcmd.forceLocal := fl; rootcmd.confPath := confPath |}, fs1)
     else if rootcmd.PathExists os confPath fs1
          then match rootcmd.LoadConfig_error os confPath fs1 with
               | Some err => (inl err, fs1)
               | None =>
                   (inr {| rootcmd.conf := {| rootcmd.origin := rootcmd.LoadConfig confPath;
                                              rootcmd.CacheDir := cache' |};
                           rootcmd.forceLocal := fl; rootcmd.confPath := confPath |}, fs1)
               end
          else (inr {| rootcmd.conf :=
                         {| rootcmd.origin :=
                              rootcmd.NewConfig (rootcmd.filepath_Dir os confPath) true;
                            rootcmd.CacheDir := cache' |};
                       rootcmd.forceLocal := fl; rootcmd.confPath := confPath |}, fs1))
      = (inr r, fs') ->
    rootcmd.CacheDir (rootcmd.conf r) = ""
    \/ (cache' = rootcmd.CacheDir (rootcmd.conf r) /\ P)).
  { intros cache' fs1 P HP. destruct fl.
    - intros [= <- <-]. simpl. destruct HP; [by left|by right].
    - destruct (rootcmd.PathExists os confPath fs1).
      + destruct (rootcmd.LoadConfig_error os confPath fs1); [done|].
        intros [= <- <-]. simpl. destruct HP; [by left|by right].
      + intros [= <- <-]. simpl. destruct HP; [by left|by right]. }
  destruct (negb (String.eqb cache "")) eqn:Hempty.
  - destruct (rootcmd.MkdirAll os cache fs) as [[err|] fs1] eqn:Hmk.
    + destruct (negb (rootcmd.IsExist os err)) eqn:Hie.
      * intros Hrun. left.
        destruct (Hgen "" fs1 False (or_introl eq_refl) Hrun) as [H|[_ []]]. done.
      * intros Hrun.
        destruct (Hgen cache fs1
                    (exists err fs1,
                        rootcmd.MkdirAll os cache fs = (err, fs1)
                        /\ match err with
                           | Some e => rootcmd.IsExist os e = true
                           | None => True
                           end)) as [H|[<- H]]; try done; [|by left|by right].
        right. exists (Some err), fs1. split; [done|].
        by apply negb_false_iff in Hie.
    + intros Hrun.
      destruct (Hgen cache fs1
                  (exists err fs1,
                      rootcmd.MkdirAll os cache fs = (err, fs1)
                      /\ match err with
                         | Some e => rootcmd.IsExist os e = true
                         | None => True
                         end)) as [H|[<- H]]; try done; [|by left|by right].
      right. by exists None, fs1.
  - apply negb_false_iff, String.eqb_eq in Hempty. subst cache.
    intros Hrun. left.
    destruct (Hgen "" fs False (or_introl eq_refl) Hrun) as [H|[_ []]]. done.
Qed.

Lemma cache_dir_is_usable_or_empty_witness :
  rootcmd.CacheDir
    (rootcmd.conf
       {| rootcmd.conf := {| rootcmd.origin :=
                               rootcmd.LoadConfig "/home/u/.config/incus/config.yml";
                             rootcmd.CacheDir := "/home/u/.cache/incus" |};
          rootcmd.forceLocal := false;
          rootcmd.confPath := "/home/u/.config/incus/config.yml" |}) = ""
  \/ (rootcmd.cachePath systems.configured tt = inr "/home/u/.cache/incus"
      /\ exists err fs1,
           rootcmd.MkdirAll systems.configured "/home/u/.cache/incus" tt = (err, fs1)
           /\ match err with
              | Some e => rootcmd.IsExist systems.configured e = true
              | None => True
              end).
Proof.
  apply (cache_dir_is_usable_or_empty unit systems.configured false tt tt).
  vm_compute. reflexivity.
Defined.
